(** * AI chat relay server: rate limiter, request defaults, streaming relay

    A shallow embedding of the parts of the relay server that its design
    document makes statements about:

    - [app/core/rate_limiter.py]: the token-bucket limiter with its Redis
      path and its in-process path;
    - [app/middleware/rate_limiting.py]: the ASGI middleware in front of it;
    - [app/services/perplexityai_service.py]: defaults substitution and the
      translation of upstream chunks;
    - [app/api/v1/endpoints/chat.py]: the server-sent-event generator.

    Conventions of the embedding.

    - Python [int] values are [Z].  Python [float] values (token counts,
      timestamps, sampling controls) are exact rationals [Q] in the main
      embedding, which is the one the general statements are proved over;
      these statements are chosen so that they do not turn on the rounding
      of a float operation.  The code itself rounds after every operation.
      Module [Binary64] embeds the in-process path of the limiter a second
      time, over binary64 floats, and is evaluated wherever a statement of
      the design document does turn on rounding.
    - [time.time()] reads the [clock] field of the world; the environment may
      set it to any value between two calls, also to an earlier one.
    - An [async def] is a computation in the monad [M]: a function of the
      world returning either a value or a raised exception, and the next
      world.  Scheduling between coroutines is not modelled.
    - A Python [dict] with string keys is a [gmap string _]. *)

From Stdlib Require Import ZArith QArith Qminmax Lqa Lia List Ascii String.
From Stdlib Require PrimFloat Uint63.
From stdpp Require Import gmap strings pretty.

Local Open Scope Q_scope.

(** ** Settings ([app/core/config.py]) *)

Record Settings := {
  RATE_LIMIT_REQUESTS : Z;
  RATE_LIMIT_WINDOW : Z;
  DEFAULT_MODEL : string;
  MAX_TOKENS : Z;
  PERPLEXITY_API_KEY : string
}.

(** ** Exceptions and the computation monad *)

Inductive exn :=
| ZeroDivisionError
| ConnectionError
| AttributeError
| APIError (msg : string)
| Exception (msg : string).

Inductive outcome (A : Type) :=
| Return (a : A)
| Raise (e : exn).
Arguments Return {A} a.
Arguments Raise {A} e.

(** ** The limiter's state ([app/core/rate_limiter.py]) *)

Record TokenBucket := {
  capacity : Z;
  refill_rate : Q;
  tokens : Q;
  last_refill : Q
}.

(** The Redis server as the limiter sees it: whether a command reaches it,
    the hashes it holds (field name to value; the values the limiter writes
    with [str] and reads back with [float] are kept as numbers), and the
    absolute expiry deadline of each key that has one. *)
Record Redis := {
  reachable : bool;
  hashes : gmap string (gmap string Q);
  deadlines : gmap string Q
}.

Record RateLimiter := {
  redis_client : option Redis;
  local_buckets : gmap string TokenBucket
}.

Record World := {
  clock : Q;
  limiter : RateLimiter
}.

Definition M (A : Type) : Type := World -> outcome A * World.

Definition ret {A} (a : A) : M A := fun w => (Return a, w).
Definition raise {A} (e : exn) : M A := fun w => (Raise e, w).
Definition bind {A B} (c : M A) (k : A -> M B) : M B :=
  fun w => match c w with
           | (Return a, w') => k a w'
           | (Raise e, w') => (Raise e, w')
           end.

Declare Scope py_scope.
Delimit Scope py_scope with py.
Notation "x <- c ;; k" := (bind c (fun x => k))
  (at level 100, c at next level, k at level 200, right associativity) : py_scope.
Notation "c ;; k" := (bind c (fun _ => k))
  (at level 100, k at level 200, right associativity) : py_scope.
Local Open Scope py_scope.

(** [time.time()] *)
Definition time_time : M Q := fun w => (Return (clock w), w).

Definition get_limiter : M RateLimiter := fun w => (Return (limiter w), w).
Definition put_limiter (l : RateLimiter) : M unit :=
  fun w => (Return tt, {| clock := clock w; limiter := l |}).

(** The environment between two calls: the clock is set, nothing else moves. *)
Definition set_clock (t : Q) (w : World) : World :=
  {| clock := t; limiter := limiter w |}.

(** ** Python arithmetic used by the limiter *)

(** [a / b] on two ints: true division, [ZeroDivisionError] on [b = 0]. *)
Definition truediv (a b : Z) : M Q :=
  if (b =? 0)%Z then raise ZeroDivisionError else ret (inject_Z a / inject_Z b).

(** [min(a, b)]: the second argument only when it is strictly smaller. *)
Definition py_min (a b : Q) : Q := if Qle_bool a b then a else b.

(** [x >= n] for a float [x] and an int [n]. *)
Definition ge_int (x : Q) (n : Z) : bool := Qle_bool (inject_Z n) x.

(** ** The in-process path *)

Definition get_buckets : M (gmap string TokenBucket) :=
  l <- get_limiter ;; ret (local_buckets l).

Definition put_bucket (key : string) (b : TokenBucket) : M unit :=
  l <- get_limiter ;;
  put_limiter {| redis_client := redis_client l;
                 local_buckets := <[key := b]> (local_buckets l) |}.

Definition set_tokens (b : TokenBucket) (x : Q) : TokenBucket :=
  {| capacity := capacity b; refill_rate := refill_rate b;
     tokens := x; last_refill := last_refill b |}.

Definition set_last_refill (b : TokenBucket) (t : Q) : TokenBucket :=
  {| capacity := capacity b; refill_rate := refill_rate b;
     tokens := tokens b; last_refill := t |}.

Section Limiter.

Variable settings : Settings.

(** The bucket of a key seen for the first time. *)
Definition new_bucket (current_time : Q) : M TokenBucket :=
  rate <- truediv (RATE_LIMIT_REQUESTS settings) (RATE_LIMIT_WINDOW settings) ;;
  ret {| capacity := RATE_LIMIT_REQUESTS settings;
         refill_rate := rate;
         tokens := inject_Z (RATE_LIMIT_REQUESTS settings);
         last_refill := current_time |}.

(** The bucket after the refill statements of [_memory_rate_limit]. *)
Definition refilled (bucket : TokenBucket) (current_time : Q) : TokenBucket :=
  let time_passed := current_time - last_refill bucket in
  set_last_refill
    (set_tokens bucket
       (py_min (inject_Z (capacity bucket))
               (tokens bucket + time_passed * refill_rate bucket)))
    current_time.

Definition _memory_rate_limit (key : string) (requests : Z) : M bool :=
  current_time <- time_time ;;
  buckets <- get_buckets ;;
  bucket <- match buckets !! key with
            | Some b => ret b
            | None => b <- new_bucket current_time ;;
                      put_bucket key b ;; ret b
            end ;;
  let bucket := refilled bucket current_time in
  put_bucket key bucket ;;
  if ge_int (tokens bucket) requests then
    put_bucket key (set_tokens bucket (tokens bucket - inject_Z requests)) ;;
    ret true
  else
    ret false.

(** ** The Redis path *)

(** [self.redis_client]; the attribute access on [None] fails. *)
Definition get_client : M Redis :=
  l <- get_limiter ;;
  match redis_client l with
  | Some r => ret r
  | None => raise AttributeError
  end.

Definition put_client (r : Redis) : M unit :=
  l <- get_limiter ;;
  put_limiter {| redis_client := Some r; local_buckets := local_buckets l |}.

(** A key is gone once the clock is past its deadline; at the deadline
    itself the server still holds it. *)
Definition expired (r : Redis) (now : Q) (name : string) : bool :=
  match deadlines r !! name with
  | Some d => negb (Qle_bool now d)
  | None => false
  end.

Definition live_hash (r : Redis) (now : Q) (name : string) : gmap string Q :=
  if expired r now name then ∅ else default ∅ (hashes r !! name).

(** [HGETALL name]: the empty dict for a missing key. *)
Definition hgetall (name : string) : M (gmap string Q) :=
  r <- get_client ;;
  now <- time_time ;;
  if reachable r then ret (live_hash r now name) else raise ConnectionError.

Inductive RedisCommand :=
| HSET (name : string) (mapping : gmap string Q)
| EXPIRE (name : string) (seconds : Z).

Definition apply_command (now : Q) (r : Redis) (c : RedisCommand) : Redis :=
  match c with
  | HSET name mapping =>
      {| reachable := reachable r;
         hashes := <[name := mapping ∪ live_hash r now name]> (hashes r);
         deadlines := if expired r now name then delete name (deadlines r)
                      else deadlines r |}
  | EXPIRE name seconds =>
      if (0 <? seconds)%Z then
        {| reachable := reachable r;
           hashes := hashes r;
           deadlines := <[name := now + inject_Z seconds]> (deadlines r) |}
      else
        {| reachable := reachable r;
           hashes := delete name (hashes r);
           deadlines := delete name (deadlines r) |}
  end.

(** [pipeline.execute()]: the buffered commands run in order, as one
    transaction; nothing is applied when the server cannot be reached. *)
Definition execute (pipeline : list RedisCommand) : M unit :=
  r <- get_client ;;
  now <- time_time ;;
  if reachable r then put_client (fold_left (apply_command now) pipeline r)
  else raise ConnectionError.

Definition bucket_name (key : string) : string := ("bucket:" ++ key)%string.

Definition bucket_mapping (tokens current_time : Q) : gmap string Q :=
  <["tokens" := tokens]> (<["last_refill" := current_time]> ∅).

Definition is_empty_dict (d : gmap string Q) : bool := bool_decide (d = ∅).

Definition _redis_rate_limit (key : string) (requests : Z) : M bool :=
  current_time <- time_time ;;
  bucket_data <- hgetall (bucket_name key) ;;
  let '(tokens, last_refill) :=
    if is_empty_dict bucket_data then
      (inject_Z (RATE_LIMIT_REQUESTS settings), current_time)
    else
      (default 0 (bucket_data !! "tokens"%string),
       default current_time (bucket_data !! "last_refill"%string)) in
  let time_passed := current_time - last_refill in
  refill_rate <- truediv (RATE_LIMIT_REQUESTS settings) (RATE_LIMIT_WINDOW settings) ;;
  let tokens := py_min (inject_Z (RATE_LIMIT_REQUESTS settings))
                       (tokens + time_passed * refill_rate) in
  if ge_int tokens requests then
    let tokens := tokens - inject_Z requests in
    execute [HSET (bucket_name key) (bucket_mapping tokens current_time);
             EXPIRE (bucket_name key) (RATE_LIMIT_WINDOW settings * 2)%Z] ;;
    ret true
  else
    ret false.

(** ** Backend selection *)

Definition is_allowed (key : string) (requests : Z) : M bool :=
  l <- get_limiter ;;
  match redis_client l with
  | Some _ => _redis_rate_limit key requests
  | None => _memory_rate_limit key requests
  end.

(** [initialize]: the server found at [REDIS_URL] is pinged once; any failure
    leaves the limiter without a client. *)
Definition initialize (server : Redis) : M unit :=
  l <- get_limiter ;;
  put_limiter {| redis_client := if reachable server then Some server else None;
                 local_buckets := local_buckets l |}.

End Limiter.

(** ** The middleware ([app/middleware/rate_limiting.py]) *)

(** The ASGI scope, as far as the middleware reads it: [scope["type"]],
    [request.url.path], and [request.client.host] when there is a client. *)
Record Scope := {
  scope_type : string;
  path : string;
  client_host : option string
}.

Inductive Sent (R : Type) :=
| Downstream (r : R)
| JSONResponse (status_code retry_after : Z).
Arguments Downstream {R} r.
Arguments JSONResponse {R} status_code retry_after.

Definition exempt_paths : list string :=
  ["/api/v1/health"; "/api/v1/auth/login"; "/api/v1/auth/register"]%string.

Definition path_in (p : string) (l : list string) : bool :=
  existsb (String.eqb p) l.

Section Middleware.

Context {R : Type}.
(** The limiter the module imports, and the wrapped application. *)
Variable check : string -> Z -> M bool.
Variable app : Scope -> M R.

Definition call_app (scope : Scope) : M (Sent R) :=
  r <- app scope ;; ret (Downstream r).

Definition RateLimitMiddleware_call (scope : Scope) : M (Sent R) :=
  if negb (String.eqb (scope_type scope) "http") then call_app scope
  else if path_in (path scope) exempt_paths then call_app scope
  else
    let client_ip := default "unknown"%string (client_host scope) in
    let client_key := ("ip:" ++ client_ip)%string in
    ok <- check client_key 1%Z ;;
    if negb ok then ret (JSONResponse 429 60)
    else call_app scope.

End Middleware.

(** ** Reading the limiter

    Names for what a check starts from and what it leaves behind; they are
    used to state the properties of Part II. *)

Definition with_buckets (w : World) (m : gmap string TokenBucket) : World :=
  {| clock := clock w;
     limiter := {| redis_client := redis_client (limiter w); local_buckets := m |} |}.

Definition with_client (w : World) (r : Redis) : World :=
  {| clock := clock w;
     limiter := {| redis_client := Some r;
                   local_buckets := local_buckets (limiter w) |} |}.

(** The bucket left behind by a check of cost [n] on bucket [b] at time [t]. *)
Definition charged (b : TokenBucket) (t : Q) (n : Z) : TokenBucket :=
  let b1 := refilled b t in
  if ge_int (tokens b1) n then set_tokens b1 (tokens b1 - inject_Z n) else b1.

(** What the selected backend holds for a key: tokens and last refill. *)
Definition stored_bucket (w : World) (key : string) : option (Q * Q) :=
  match redis_client (limiter w) with
  | Some r =>
      let h := live_hash r (clock w) (bucket_name key) in
      match h !! "tokens"%string, h !! "last_refill"%string with
      | Some x, Some t => Some (x, t)
      | _, _ => None
      end
  | None =>
      match local_buckets (limiter w) !! key with
      | Some b => Some (tokens b, last_refill b)
      | None => None
      end
  end.

(** The backend answers: there is no client, or its server is reachable. *)
Definition backend_up (w : World) : Prop :=
  forall r, redis_client (limiter w) = Some r -> reachable r = true.

Section Observations.

Variable settings : Settings.

Local Abbreviation REQ := (RATE_LIMIT_REQUESTS settings).
Local Abbreviation WINDOW := (RATE_LIMIT_WINDOW settings).

(** The bucket a first-seen key gets when the window is not zero. *)
Definition full_bucket (t : Q) : TokenBucket :=
  {| capacity := REQ;
     refill_rate := inject_Z REQ / inject_Z WINDOW;
     tokens := inject_Z REQ;
     last_refill := t |}.

(** The bucket [_memory_rate_limit] works on: the stored one, or a full one. *)
Definition prior_bucket (w : World) (key : string) : TokenBucket :=
  default (full_bucket (clock w)) (local_buckets (limiter w) !! key).

(** What the Redis path reads for a key: tokens and last refill. *)
Definition redis_prior (r : Redis) (now : Q) (key : string) : Q * Q :=
  let bucket_data := live_hash r now (bucket_name key) in
  if is_empty_dict bucket_data then (inject_Z REQ, now)
  else (default 0 (bucket_data !! "tokens"%string),
        default now (bucket_data !! "last_refill"%string)).

(** The token count the Redis path compares with the cost. *)
Definition redis_refreshed (r : Redis) (now : Q) (key : string) : Q :=
  py_min (inject_Z REQ)
         (fst (redis_prior r now key)
          + (now - snd (redis_prior r now key)) * (inject_Z REQ / inject_Z WINDOW)).

Definition redis_saved (r : Redis) (now : Q) (key : string) (n : Z) : Redis :=
  fold_left (apply_command now)
    [HSET (bucket_name key)
          (bucket_mapping (redis_refreshed r now key - inject_Z n) now);
     EXPIRE (bucket_name key) (WINDOW * 2)%Z] r.

(** The state a check starts from: tokens, last refill, capacity and rate, as
    the selected path reads or creates them. *)
Definition prior_tokens (w : World) (key : string) : Q :=
  match redis_client (limiter w) with
  | Some r => fst (redis_prior r (clock w) key)
  | None => tokens (prior_bucket w key)
  end.

Definition prior_last_refill (w : World) (key : string) : Q :=
  match redis_client (limiter w) with
  | Some r => snd (redis_prior r (clock w) key)
  | None => last_refill (prior_bucket w key)
  end.

Definition prior_capacity (w : World) (key : string) : Z :=
  match redis_client (limiter w) with
  | Some r => REQ
  | None => capacity (prior_bucket w key)
  end.

Definition prior_rate (w : World) (key : string) : Q :=
  match redis_client (limiter w) with
  | Some r => inject_Z REQ / inject_Z WINDOW
  | None => refill_rate (prior_bucket w key)
  end.

(** The token count after refill, the one compared with the cost. *)
Definition refreshed_tokens (w : World) (key : string) : Q :=
  match redis_client (limiter w) with
  | Some r => redis_refreshed r (clock w) key
  | None => tokens (refilled (prior_bucket w key) (clock w))
  end.

Definition after_check (w : World) (key : string) (n : Z) : World :=
  match redis_client (limiter w) with
  | Some r =>
      if ge_int (redis_refreshed r (clock w) key) n
      then with_client w (redis_saved r (clock w) key n)
      else w
  | None =>
      with_buckets w (<[key := charged (prior_bucket w key) (clock w) n]>
                        (local_buckets (limiter w)))
  end.

End Observations.

(** ** Concrete settings and worlds used in examples *)

Definition demo_settings : Settings :=
  {| RATE_LIMIT_REQUESTS := 3; RATE_LIMIT_WINDOW := 60;
     DEFAULT_MODEL := "gpt-4o-mini"; MAX_TOKENS := 4096;
     PERPLEXITY_API_KEY := "pplx-key" |}.

Definition fresh_world (t : Q) : World :=
  {| clock := t; limiter := {| redis_client := None; local_buckets := ∅ |} |}.

Definition live_redis : Redis :=
  {| reachable := true; hashes := ∅; deadlines := ∅ |}.

Definition dead_redis : Redis :=
  {| reachable := false; hashes := ∅; deadlines := ∅ |}.

Definition redis_world (t : Q) (r : Redis) : World :=
  {| clock := t; limiter := {| redis_client := Some r; local_buckets := ∅ |} |}.

(** A key whose bucket was emptied at time 1000, as the Redis path left it. *)
Definition drained_redis : Redis :=
  {| reachable := true;
     hashes := {[ "bucket:user:42"%string := bucket_mapping 0 1000 ]};
     deadlines := {[ "bucket:user:42"%string := 1120 ]} |}.

(** The reading of "the refreshed state is persisted on every call": after a
    check at time [clock w] the selected backend holds, for the key, the
    refreshed token count (less the cost when the check passed) and the time
    of the check. *)
Definition persists_refreshed (settings : Settings) (w : World) (key : string)
    (n : Z) : Prop :=
  forall (b : bool) (w' : World),
    is_allowed settings key n w = (Return b, w') ->
    exists x t,
      stored_bucket w' key = Some (x, t)
      /\ t == clock w
      /\ x == refreshed_tokens settings w key
              - (if b then inject_Z n else 0).

(** The elapsed time a check computes, [time_passed] in both paths. *)
Definition time_passed (settings : Settings) (w : World) (key : string) : Q :=
  clock w - prior_last_refill settings w key.



(** A sequence of checks on one key, each given as the clock reading at the
    call and the cost: the answers, and the world after the last one. *)
Fixpoint checks (settings : Settings) (key : string) (calls : list (Q * Z))
    (w : World) : list (outcome bool) * World :=
  match calls with
  | [] => ([], w)
  | (t, n) :: rest =>
      let (o, w1) := is_allowed settings key n (set_clock t w) in
      let (os, w2) := checks settings key rest w1 in
      (o :: os, w2)
  end.

(** The in-process limiter 60 seconds after three checks emptied the bucket. *)
Definition idle_world : World :=
  set_clock 1060
    (snd (checks demo_settings "user:42" [(1000, 1%Z); (1000, 1%Z); (1000, 1%Z)]
            (fresh_world 1000))).

(** The run of a sequence of checks on one key, step by step: the world each
    check starts in (the clock already set), its answer, the world it leaves. *)
Fixpoint trace (settings : Settings) (key : string) (calls : list (Q * Z))
    (w : World) : list (World * outcome bool * World) :=
  match calls with
  | [] => []
  | (t, n) :: rest =>
      let w0 := set_clock t w in
      let (o, w1) := is_allowed settings key n w0 in
      (w0, o, w1) :: trace settings key rest w1
  end.

(** Clock readings that never go back, and costs that are not negative. *)
Fixpoint orderly (t0 : Q) (calls : list (Q * Z)) : Prop :=
  match calls with
  | [] => True
  | (t, n) :: rest => t0 <= t /\ (0 <= n)%Z /\ orderly t rest
  end.

(** The data-model invariant of a bucket, on whichever backend holds it: it
    was made under the current settings, its tokens lie between 0 and the
    capacity, and it was not refilled in the future. *)
Definition bucket_inv (settings : Settings) (w : World) (key : string) : Prop :=
  match redis_client (limiter w) with
  | Some r =>
      forall h, hashes r !! bucket_name key = Some h ->
        exists x t,
          h !! "tokens"%string = Some x /\ h !! "last_refill"%string = Some t
          /\ 0 <= x /\ x <= inject_Z (RATE_LIMIT_REQUESTS settings)
          /\ t <= clock w
  | None =>
      forall b, local_buckets (limiter w) !! key = Some b ->
        capacity b = RATE_LIMIT_REQUESTS settings
        /\ refill_rate b
           = inject_Z (RATE_LIMIT_REQUESTS settings)
             / inject_Z (RATE_LIMIT_WINDOW settings)
        /\ 0 <= tokens b /\ tokens b <= inject_Z (RATE_LIMIT_REQUESTS settings)
        /\ last_refill b <= clock w
  end.

(** What the design document asks of one step of a run.  The token count of
    the key's bucket is read with [prior_tokens], before and after. *)
Definition step_ok (settings : Settings) (key : string)
    (s : World * outcome bool * World) : Prop :=
  let '(w0, o, w1) := s in
  exists b : bool,
    o = Return b
    /\ 0 <= prior_tokens settings w1 key
    /\ prior_tokens settings w1 key <= inject_Z (RATE_LIMIT_REQUESTS settings)
    /\ prior_tokens settings w0 key <= refreshed_tokens settings w0 key
    /\ prior_tokens settings w1 key <= refreshed_tokens settings w0 key
    /\ (b = false -> prior_tokens settings w0 key <= prior_tokens settings w1 key).

(** The reading of "tokens never go negative and never exceed capacity". *)
Definition tokens_in_bounds (settings : Settings) (w : World) (key : string) : Prop :=
  0 <= prior_tokens settings w key
  /\ prior_tokens settings w key <= inject_Z (RATE_LIMIT_REQUESTS settings).

(** Checks of cost 1 at the given clock readings. *)
Definition burst_calls (times : list Q) : list (Q * Z) :=
  map (fun t => (t, 1%Z)) times.

(** The in-process path seen from one bucket: the decisions of a sequence of
    checks, and the bucket they leave. *)
Fixpoint bucket_answers (b : TokenBucket) (calls : list (Q * Z)) : list bool :=
  match calls with
  | [] => []
  | (t, n) :: rest =>
      ge_int (tokens (refilled b t)) n :: bucket_answers (charged b t n) rest
  end.

Fixpoint bucket_after (b : TokenBucket) (calls : list (Q * Z)) : TokenBucket :=
  match calls with
  | [] => b
  | (t, n) :: rest => bucket_after (charged b t n) rest
  end.

(** All the readings lie in one window of the given length. *)
Definition within_window (window : Z) (times : list Q) : Prop :=
  forall t t', In t times -> In t' times -> t' - t < inject_Z window.

(** The reading of "exactly capacity checks succeed within any window,
    starting from a full bucket, and the next one is turned down". *)
Definition window_quota (settings : Settings) (key : string) (w : World)
    (times : list Q) : Prop :=
  length times = S (Z.to_nat (RATE_LIMIT_REQUESTS settings)) ->
  orderly (clock w) (burst_calls times) ->
  within_window (RATE_LIMIT_WINDOW settings) times ->
  fst (checks settings key (burst_calls times) w)
  = repeat (Return true) (Z.to_nat (RATE_LIMIT_REQUESTS settings))
    ++ [Return false].

(** A bucket of the current settings that can still pay for [j] checks of
    cost 1, and holds no more than that beyond what has been refilled since
    [t1]. *)
Definition pays (settings : Settings) (t1 : Q) (j : nat) (b : TokenBucket) : Prop :=
  capacity b = RATE_LIMIT_REQUESTS settings
  /\ refill_rate b
     = inject_Z (RATE_LIMIT_REQUESTS settings) / inject_Z (RATE_LIMIT_WINDOW settings)
  /\ inject_Z (Z.of_nat j) <= tokens b
  /\ tokens b
     <= inject_Z (Z.of_nat j)
        + (last_refill b - t1)
          * (inject_Z (RATE_LIMIT_REQUESTS settings)
             / inject_Z (RATE_LIMIT_WINDOW settings))
  /\ tokens b <= inject_Z (RATE_LIMIT_REQUESTS settings)
  /\ t1 <= last_refill b.

(** A downstream application that answers without touching the limiter, and
    a health-check request. *)
Definition idle_app (scope : Scope) : M unit := ret tt.

Definition health_scope : Scope :=
  {| scope_type := "http"; path := "/api/v1/health";
     client_host := Some "10.0.0.7"%string |}.

(** ** Requests and defaults ([app/models/chat.py],
    [app/services/perplexityai_service.py]) *)

Record ChatMessage := {
  role : string;
  content : string;
  name : option string
}.

(** Every [Optional] field is an [option]; [None] is the unset parameter. *)
Record ChatRequest := {
  messages : list ChatMessage;
  model : option string;
  temperature : option Q;
  max_tokens : option Z;
  top_p : option Q;
  frequency_penalty : option Q;
  presence_penalty : option Q;
  stream : option bool;
  user : option string
}.

(** The keyword arguments of [client.chat.completions.create]. *)
Record CreateArgs := {
  arg_model : string;
  arg_messages : list ChatMessage;
  arg_temperature : Q;
  arg_max_tokens : Z;
  arg_top_p : Q;
  arg_frequency_penalty : Q;
  arg_presence_penalty : Q;
  arg_stream : bool;
  arg_user : option string
}.

(** [x or d]: [d] replaces every falsy [x], that is [None], the empty string
    and a zero. *)
Definition or_str (x : option string) (d : string) : string :=
  match x with
  | Some s => if String.eqb s "" then d else s
  | None => d
  end.

Definition or_float (x : option Q) (d : Q) : Q :=
  match x with
  | Some q => if Qeq_bool q 0 then d else q
  | None => d
  end.

Definition or_int (x : option Z) (d : Z) : Z :=
  match x with
  | Some z => if (z =? 0)%Z then d else z
  | None => d
  end.

Record LLMService := {
  default_model : string;
  service_max_tokens : Z
}.

(** [LLMService.__init__] *)
Definition make_service (settings : Settings) : LLMService :=
  if negb (String.eqb (PERPLEXITY_API_KEY settings) "") then
    {| default_model := or_str (Some (DEFAULT_MODEL settings)) "sonar-medium-online";
       service_max_tokens := MAX_TOKENS settings |}
  else
    {| default_model := or_str (Some (DEFAULT_MODEL settings)) "gpt-4o-mini";
       service_max_tokens := MAX_TOKENS settings |}.

(** The arguments both [create_chat_completion] ([stream = False]) and
    [create_chat_completion_stream] ([stream = True]) pass upstream. *)
Definition create_args (self : LLMService) (request : ChatRequest)
    (streaming : bool) : CreateArgs :=
  {| arg_model := or_str (model request) (default_model self);
     arg_messages := messages request;
     arg_temperature := or_float (temperature request) 0.7;
     arg_max_tokens := or_int (max_tokens request) (service_max_tokens self);
     arg_top_p := or_float (top_p request) 1.0;
     arg_frequency_penalty := or_float (frequency_penalty request) 0.0;
     arg_presence_penalty := or_float (presence_penalty request) 0.0;
     arg_stream := streaming;
     arg_user := user request |}.

(** ** JSON values and [json.dumps]

    A string is read as a sequence of code points below 256.  The encoder is
    the default one: [ensure_ascii], separators [", "] and [": "], keys in
    insertion order. *)

#[local] Set Warnings "-register-all".

Inductive json :=
| JNull
| JStr (s : string)
| JInt (z : Z)
| JList (items : list json)
| JDict (pairs : list (string * json)).

Definition dquote : ascii := "034"%char.
Definition backslash : ascii := "092"%char.
Definition newline : ascii := "010"%char.

Definition hex_digit (n : N) : ascii :=
  ascii_of_N (if (n <? 10)%N then 48 + n else 87 + n).

(** One character of a string literal: the two-character escapes, [\u00XX]
    for the rest outside the printable ASCII range, itself otherwise. *)
Definition escape_char (c : ascii) : string :=
  let n := N_of_ascii c in
  if (n =? 34)%N then String backslash (String dquote "")
  else if (n =? 92)%N then String backslash (String backslash "")
  else if (n =? 10)%N then String backslash "n"
  else if (n =? 13)%N then String backslash "r"
  else if (n =? 9)%N then String backslash "t"
  else if (n =? 8)%N then String backslash "b"
  else if (n =? 12)%N then String backslash "f"
  else if ((n <? 32) || (126 <? n))%N then
    String backslash
      (String "u" (String "0" (String "0"
         (String (hex_digit (n / 16)) (String (hex_digit (n mod 16)) "")))))
  else String c "".

Fixpoint escape (s : string) : string :=
  match s with
  | EmptyString => EmptyString
  | String c rest => (escape_char c ++ escape rest)%string
  end.

Definition encode_basestring_ascii (s : string) : string :=
  String dquote (escape s ++ String dquote "")%string.

Fixpoint json_dumps (j : json) : string :=
  match j with
  | JNull => "null"
  | JStr s => encode_basestring_ascii s
  | JInt z => pretty z
  | JList items =>
      ("[" ++
       (fix dump_items (l : list json) : string :=
          match l with
          | [] => ""
          | x :: rest =>
              match rest with
              | [] => json_dumps x
              | _ :: _ => json_dumps x ++ ", " ++ dump_items rest
              end
          end) items
       ++ "]")%string
  | JDict pairs =>
      ("{" ++
       (fix dump_pairs (l : list (string * json)) : string :=
          match l with
          | [] => ""
          | (k, v) :: rest =>
              match rest with
              | [] => encode_basestring_ascii k ++ ": " ++ json_dumps v
              | _ :: _ =>
                  encode_basestring_ascii k ++ ": " ++ json_dumps v ++ ", "
                  ++ dump_pairs rest
              end
          end) pairs
       ++ "}")%string
  end.

(** [d[k]] and [l[i]], [None] when absent. *)
Definition json_get (k : string) (j : json) : option json :=
  match j with
  | JDict pairs => snd <$> List.find (fun kv => String.eqb (fst kv) k) pairs
  | _ => None
  end.

Definition json_nth (i : nat) (j : json) : option json :=
  match j with
  | JList items => nth_error items i
  | _ => None
  end.

Definition json_opt_str (x : option string) : json :=
  match x with
  | Some s => JStr s
  | None => JNull
  end.

(** ** Upstream chunks and the service generator *)

Module Chunk.

Record ChoiceDelta := {
  content : option string
}.

(** [delta] is [None] for a malformed chunk that carries no delta object. *)
Record Choice := {
  index : Z;
  delta : option ChoiceDelta;
  finish_reason : option string
}.

Record t := {
  id : string;
  object : string;
  created : Z;
  model : string;
  choices : list Choice
}.

End Chunk.

(** How an upstream stream ends, and what the provider does with a call:
    the call itself fails, or it hands back a finite run of chunks that ends
    by exhaustion or by an error raised while waiting for the next chunk. *)
Inductive StreamEnd :=
| Exhausted
| Fails (e : exn).

Inductive Upstream :=
| OpenFails (e : exn)
| Opened (chunks : list Chunk.t) (ending : StreamEnd).

(** What a generator does when it is run to its end: the values it yields,
    in order, and the exception it ends with, if any. *)
Record Generated (A : Type) := {
  yielded : list A;
  raised : option exn
}.
Arguments yielded {A} g.
Arguments raised {A} g.

Definition truthy (x : option string) : bool :=
  match x with
  | Some s => negb (String.eqb s "")
  | None => false
  end.

Definition chunk_envelope (chunk : Chunk.t) (choice : Chunk.Choice)
    (delta : json) : json :=
  JDict [("id", JStr (Chunk.id chunk));
         ("object", JStr (Chunk.object chunk));
         ("created", JInt (Chunk.created chunk));
         ("model", JStr (Chunk.model chunk));
         ("choices",
          JList [JDict [("index", JInt (Chunk.index choice));
                        ("delta", delta);
                        ("finish_reason",
                         json_opt_str (Chunk.finish_reason choice))]])]%string.

(** The first [yield] of the loop body. *)
Definition content_event (chunk : Chunk.t) (choice : Chunk.Choice)
    (text : string) : json :=
  chunk_envelope chunk choice (JDict [("content"%string, JStr text)]).

(** The second [yield] of the loop body. *)
Definition finish_event (chunk : Chunk.t) (choice : Chunk.Choice) : json :=
  chunk_envelope chunk choice (JDict []).

(** The body of [async for chunk in stream] for one chunk. *)
Definition chunk_events (chunk : Chunk.t) : Generated json :=
  match Chunk.choices chunk with
  | [] => {| yielded := []; raised := None |}
  | choice :: _ =>
      match Chunk.delta choice with
      | None => {| yielded := []; raised := Some AttributeError |}
      | Some d =>
          {| yielded :=
               (match Chunk.content d with
                | Some text => [content_event chunk choice text]
                | None => []
                end)
               ++ (if truthy (Chunk.finish_reason choice)
                   then [finish_event chunk choice] else []);
             raised := None |}
      end
  end.

Fixpoint relay_chunks (chunks : list Chunk.t) (ending : StreamEnd)
    : Generated json :=
  match chunks with
  | [] =>
      match ending with
      | Exhausted => {| yielded := []; raised := None |}
      | Fails e => {| yielded := []; raised := Some e |}
      end
  | chunk :: rest =>
      let g := chunk_events chunk in
      match raised g with
      | Some e => g
      | None =>
          let g' := relay_chunks rest ending in
          {| yielded := yielded g ++ yielded g'; raised := raised g' |}
      end
  end.

(** [str(e)] *)
Definition str_exn (e : exn) : string :=
  match e with
  | ZeroDivisionError => "division by zero"
  | ConnectionError => "Connection error."
  | AttributeError => "'NoneType' object has no attribute 'content'"
  | APIError msg => msg
  | Exception msg => msg
  end.

(** [create_chat_completion_stream]: the whole body sits in one [try]; what
    it catches is raised again as a plain [Exception]. *)
Definition create_chat_completion_stream (self : LLMService)
    (upstream : CreateArgs -> Upstream) (request : ChatRequest)
    : Generated json :=
  let rewrap (e : exn) := Exception ("LLM streaming error: " ++ str_exn e) in
  match upstream (create_args self request true) with
  | OpenFails e => {| yielded := []; raised := Some (rewrap e) |}
  | Opened chunks ending =>
      let g := relay_chunks chunks ending in
      {| yielded := yielded g; raised := rewrap <$> raised g |}
  end.

(** ** The event generator of the endpoint ([app/api/v1/endpoints/chat.py]) *)

Definition two_newlines : string := String newline (String newline "").

Definition sse (payload : string) : string :=
  ("data: " ++ payload ++ two_newlines)%string.

Definition done_frame : string := sse "[DONE]".

Definition error_data : json :=
  JDict [("error",
          JDict [("message", JStr "Stream error occurred");
                 ("type", JStr "server_error")])]%string.

Definition error_frame : string := sse (json_dumps error_data).

Definition generate_stream (self : LLMService)
    (upstream : CreateArgs -> Upstream) (request : ChatRequest)
    : Generated string :=
  let g := create_chat_completion_stream self upstream request in
  let frames := map (fun chunk => sse (json_dumps chunk)) (yielded g) in
  match raised g with
  | None => {| yielded := frames ++ [done_frame]; raised := None |}
  | Some e => {| yielded := frames ++ [error_frame]; raised := None |}
  end.

(** A frame that ends a session: the sentinel or the error event. *)
Definition is_terminal (frame : string) : bool :=
  String.eqb frame done_frame || String.eqb frame error_frame.

(** The frames as the design document spells them: the sentinel
    [data: [DONE]] and the error event, each closed by a blank line. *)
Definition quoted (s : string) : string := String dquote (s ++ String dquote "").

Definition sentinel_text : string :=
  ("data: [DONE]" ++ String "010" (String "010" ""))%string.

Definition error_event_text : string :=
  ("data: {" ++ quoted "error" ++ ": {" ++ quoted "message" ++ ": "
   ++ quoted "Stream error occurred" ++ ", " ++ quoted "type" ++ ": "
   ++ quoted "server_error" ++ "}}" ++ String "010" (String "010" ""))%string.

(** ** Reading outbound events *)

(** [event["choices"][0]] and [event["choices"][0][k]] *)
Definition event_choice (event : json) : option json :=
  match json_get "choices" event with
  | Some cs => json_nth 0 cs
  | None => None
  end.

Definition event_field (k : string) (event : json) : option json :=
  match event_choice event with
  | Some c => json_get k c
  | None => None
  end.

(** [event["choices"][0]["delta"]] *)
Definition event_delta (event : json) : option json :=
  match json_get "choices" event with
  | Some cs =>
      match json_nth 0 cs with
      | Some c => json_get "delta" c
      | None => None
      end
  | None => None
  end.

(** A content event has a delta with a [content] key; a finish event has the
    empty delta. *)
Definition is_content_event (event : json) : bool :=
  match event_delta event with
  | Some d => match json_get "content" d with Some _ => true | None => false end
  | None => false
  end.

Definition is_finish_event (event : json) : bool :=
  match event_delta event with
  | Some (JDict []) => true
  | _ => false
  end.

(** The first choice of the chunk has a delta whose content is not [None]. *)
Definition carries_content (chunk : Chunk.t) : bool :=
  match Chunk.choices chunk with
  | choice :: _ =>
      match Chunk.delta choice with
      | Some d => match Chunk.content d with Some _ => true | None => false end
      | None => false
      end
  | [] => false
  end.

(** The first choice of the chunk has a delta whose content is a string that
    is not empty. *)
Definition carries_nonempty_content (chunk : Chunk.t) : bool :=
  match Chunk.choices chunk with
  | choice :: _ =>
      match Chunk.delta choice with
      | Some d => truthy (Chunk.content d)
      | None => false
      end
  | [] => false
  end.

(** The first choice of the chunk has a delta and a finish reason that is
    neither [None] nor empty. *)
Definition carries_finish (chunk : Chunk.t) : bool :=
  match Chunk.choices chunk with
  | choice :: _ =>
      match Chunk.delta choice with
      | Some _ => truthy (Chunk.finish_reason choice)
      | None => false
      end
  | [] => false
  end.

(** The reading of "one content event if and only if the chunk contains
    non-empty incremental content". *)
Definition content_iff_nonempty (chunk : Chunk.t) : Prop :=
  length (List.filter is_content_event (yielded (chunk_events chunk))) = 1%nat
  <-> carries_nonempty_content chunk = true.

(** ** Concrete requests and streams used in examples *)

Definition hi_message : ChatMessage :=
  {| role := "user"; content := "hi"; name := None |}.

(** A request that sets the temperature to 0.0 and leaves the rest at the
    defaults of the request model. *)
Definition zero_temperature_request : ChatRequest :=
  {| messages := [hi_message]; model := None;
     temperature := Some 0.0; max_tokens := None; top_p := Some 1.0;
     frequency_penalty := Some 0.0; presence_penalty := Some 0.0;
     stream := Some false; user := None |}.

Definition demo_service : LLMService := make_service demo_settings.

Definition demo_choice (text finish : option string) : Chunk.Choice :=
  {| Chunk.index := 0;
     Chunk.delta := Some {| Chunk.content := text |};
     Chunk.finish_reason := finish |}.

Definition demo_chunk (text finish : option string) : Chunk.t :=
  {| Chunk.id := "chatcmpl-1"; Chunk.object := "chat.completion.chunk";
     Chunk.created := 1700000000; Chunk.model := "sonar";
     Chunk.choices := [demo_choice text finish] |}.

(** Content "Hel", content "lo", then the finish reason "stop". *)
Definition hello_upstream (args : CreateArgs) : Upstream :=
  Opened [demo_chunk (Some "Hel"%string) None;
          demo_chunk (Some "lo"%string) None;
          demo_chunk None (Some "stop"%string)]
         Exhausted.

(** The chunk that opens a stream: a delta with the empty content. *)
Definition empty_content_chunk : Chunk.t := demo_chunk (Some ""%string) None.

(** An event shaped by [chunk_envelope]. *)
Definition is_envelope (event : json) : Prop :=
  exists chunk choice delta, event = chunk_envelope chunk choice delta.

(** ** The in-process path in binary64

    [_memory_rate_limit] once more, with every [float] a binary64 float and
    every operation rounded as Python rounds it.  The state is the dict of
    buckets; the clock reading of the call is an argument. *)

Module Binary64.

Record TokenBucket := {
  capacity : Z;
  refill_rate : PrimFloat.float;
  tokens : PrimFloat.float;
  last_refill : PrimFloat.float
}.

(** [float(n)], exact for an int of at most 53 bits. *)
Definition of_int (n : Z) : PrimFloat.float :=
  if (n <? 0)%Z then PrimFloat.opp (PrimFloat.of_uint63 (Uint63.of_Z (- n)))
  else PrimFloat.of_uint63 (Uint63.of_Z n).

(** [a / b] on two such ints: the quotient, rounded once. *)
Definition truediv (a b : Z) : outcome PrimFloat.float :=
  if (b =? 0)%Z then Raise ZeroDivisionError
  else Return (PrimFloat.div (of_int a) (of_int b)).

(** [min(a, x)] for an int [a] and a float [x]: [x] only when it is strictly
    smaller. *)
Definition py_min (a : Z) (x : PrimFloat.float) : PrimFloat.float :=
  if PrimFloat.ltb x (of_int a) then x else of_int a.

(** [x >= n] for a float [x] and an int [n]. *)
Definition ge_int (x : PrimFloat.float) (n : Z) : bool :=
  PrimFloat.leb (of_int n) x.

Definition new_bucket (settings : Settings) (current_time : PrimFloat.float)
    : outcome TokenBucket :=
  match truediv (RATE_LIMIT_REQUESTS settings) (RATE_LIMIT_WINDOW settings) with
  | Return rate =>
      Return {| capacity := RATE_LIMIT_REQUESTS settings;
                refill_rate := rate;
                tokens := of_int (RATE_LIMIT_REQUESTS settings);
                last_refill := current_time |}
  | Raise e => Raise e
  end.

Definition refilled (bucket : TokenBucket) (current_time : PrimFloat.float)
    : TokenBucket :=
  let time_passed := PrimFloat.sub current_time (last_refill bucket) in
  {| capacity := capacity bucket;
     refill_rate := refill_rate bucket;
     tokens := py_min (capacity bucket)
                 (PrimFloat.add (tokens bucket)
                    (PrimFloat.mul time_passed (refill_rate bucket)));
     last_refill := current_time |}.

Definition _memory_rate_limit (settings : Settings) (key : string) (requests : Z)
    (current_time : PrimFloat.float) (buckets : gmap string TokenBucket)
    : outcome bool * gmap string TokenBucket :=
  match match buckets !! key with
        | Some b => Return b
        | None => new_bucket settings current_time
        end with
  | Raise e => (Raise e, buckets)
  | Return bucket =>
      let bucket := refilled bucket current_time in
      if ge_int (tokens bucket) requests then
        (Return true,
         <[key := {| capacity := capacity bucket;
                     refill_rate := refill_rate bucket;
                     tokens := PrimFloat.sub (tokens bucket) (of_int requests);
                     last_refill := last_refill bucket |}]> buckets)
      else
        (Return false, <[key := bucket]> buckets)
  end.

(** A sequence of checks on one key, each given as the clock reading at the
    call and the cost. *)
Fixpoint checks (settings : Settings) (key : string)
    (calls : list (PrimFloat.float * Z)) (buckets : gmap string TokenBucket)
    : list (outcome bool) * gmap string TokenBucket :=
  match calls with
  | [] => ([], buckets)
  | (t, n) :: rest =>
      let (o, buckets1) := _memory_rate_limit settings key n t buckets in
      let (os, buckets2) := checks settings key rest buckets1 in
      (o :: os, buckets2)
  end.

(** The reading of "a bucket idle for at least windowSeconds is fully
    refilled to capacity before the next check": when the elapsed time the
    check computes is at least the window, the refreshed count is the
    capacity. *)
Definition idle_window_refills (settings : Settings) (key : string)
    (buckets : gmap string TokenBucket) (current_time : PrimFloat.float) : Prop :=
  forall bucket : TokenBucket,
    buckets !! key = Some bucket ->
    PrimFloat.leb (of_int (RATE_LIMIT_WINDOW settings))
      (PrimFloat.sub current_time (last_refill bucket)) = true ->
    PrimFloat.eqb (tokens (refilled bucket current_time))
      (of_int (capacity bucket)) = true.

End Binary64.

(** One request per 49 seconds. *)
Definition slow_settings : Settings :=
  {| RATE_LIMIT_REQUESTS := 1; RATE_LIMIT_WINDOW := 49;
     DEFAULT_MODEL := "gpt-4o-mini"; MAX_TOKENS := 4096;
     PERPLEXITY_API_KEY := "pplx-key" |}.

(** The buckets of the binary64 path after its one token was spent at time
    1000. *)
Definition spent_buckets : gmap string Binary64.TokenBucket :=
  snd (Binary64._memory_rate_limit slow_settings "user:42" 1
         (Binary64.of_int 1000) ∅).

(** ** More names for states of the limiter *)

(** Everything the limiter holds for a key: the in-process bucket, and on
    the Redis server the hash and its expiry deadline. *)
Definition held_for (w : World) (key : string)
    : option TokenBucket * option (gmap string Q) * option Q :=
  (local_buckets (limiter w) !! key,
   match redis_client (limiter w) with
   | Some r => hashes r !! bucket_name key
   | None => None
   end,
   match redis_client (limiter w) with
   | Some r => deadlines r !! bucket_name key
   | None => None
   end).

(** Whether the limiter has a client, and whether its server answers. *)
Definition backend_state (w : World) : option bool :=
  match redis_client (limiter w) with
  | Some r => Some (reachable r)
  | None => None
  end.

(** The answer of a check in every case, errors included. *)
Definition expected_answer (settings : Settings) (w : World) (key : string)
    (n : Z) : outcome bool :=
  match redis_client (limiter w) with
  | Some r =>
      if reachable r then
        if (RATE_LIMIT_WINDOW settings =? 0)%Z then Raise ZeroDivisionError
        else Return (ge_int (redis_refreshed settings r (clock w) key) n)
      else Raise ConnectionError
  | None =>
      match local_buckets (limiter w) !! key with
      | Some b => Return (ge_int (tokens (refilled b (clock w))) n)
      | None =>
          if (RATE_LIMIT_WINDOW settings =? 0)%Z then Raise ZeroDivisionError
          else Return (ge_int (tokens (refilled (full_bucket settings (clock w))
                                         (clock w))) n)
      end
  end.

(** Settings with a window of zero seconds. *)
Definition zero_window_settings : Settings :=
  {| RATE_LIMIT_REQUESTS := 3; RATE_LIMIT_WINDOW := 0;
     DEFAULT_MODEL := "gpt-4o-mini"; MAX_TOKENS := 4096;
     PERPLEXITY_API_KEY := "pplx-key" |}.

(** The Redis path after one check at time 1000 on a fresh server. *)
Definition charged_redis_world : World :=
  snd (is_allowed demo_settings "user:42" 1 (redis_world 1000 live_redis)).

(** The in-process limiter right after three checks emptied the bucket. *)
Definition emptied_world : World :=
  snd (checks demo_settings "user:42" [(1000, 1%Z); (1000, 1%Z); (1000, 1%Z)]
         (fresh_world 1000)).


(** ** The plain completion call ([app/services/perplexityai_service.py]) *)

Module Completion.

Record Usage := {
  prompt_tokens : Z;
  completion_tokens : Z;
  total_tokens : Z
}.

Record Message := {
  role : string;
  content : option string
}.

Record Choice := {
  index : Z;
  message : Message;
  finish_reason : option string
}.

(** The response object of the provider; [usage] is [None] when omitted. *)
Record t := {
  id : string;
  object : string;
  created : Z;
  model : string;
  choices : list Choice;
  usage : option Usage
}.

End Completion.

Definition choice_json (choice : Completion.Choice) : json :=
  JDict [("index", JInt (Completion.index choice));
         ("message",
          JDict [("role", JStr (Completion.role (Completion.message choice)));
                 ("content",
                  json_opt_str (Completion.content (Completion.message choice)))]);
         ("finish_reason", json_opt_str (Completion.finish_reason choice))]%string.

Definition usage_json (usage : option Completion.Usage) : json :=
  JDict [("prompt_tokens",
          JInt (match usage with
                | Some u => Completion.prompt_tokens u | None => 0 end));
         ("completion_tokens",
          JInt (match usage with
                | Some u => Completion.completion_tokens u | None => 0 end));
         ("total_tokens",
          JInt (match usage with
                | Some u => Completion.total_tokens u | None => 0 end))]%string.

Definition completion_json (response : Completion.t) : json :=
  JDict [("id", JStr (Completion.id response));
         ("object", JStr (Completion.object response));
         ("created", JInt (Completion.created response));
         ("model", JStr (Completion.model response));
         ("choices", JList (map choice_json (Completion.choices response)));
         ("usage", usage_json (Completion.usage response))]%string.

(** [create_chat_completion]: one [try] around the call and the mapping. *)
Definition create_chat_completion (self : LLMService)
    (provider : CreateArgs -> outcome Completion.t) (request : ChatRequest)
    : outcome json :=
  match provider (create_args self request false) with
  | Return response => Return (completion_json response)
  | Raise e => Raise (Exception ("LLM API error: " ++ str_exn e))
  end.

(** [LLMService.get_available_models]: the ids the provider lists, or four
    fixed names when listing fails. *)
Definition fallback_models : list string :=
  ["sonar-medium-online"; "sonar-small-online";
   "sonar-medium-chat"; "sonar-small-chat"]%string.

Definition service_get_available_models (listing : outcome (list string))
    : outcome (list string) :=
  match listing with
  | Return ids => Return ids
  | Raise e => Return fallback_models
  end.

(** [LLMService.health_check] *)
Definition service_health_check (listing : outcome (list string))
    : outcome json :=
  match listing with
  | Return ids =>
      Return (JDict [("status", JStr "healthy");
                     ("models_count", JInt (Z.of_nat (length ids)))]%string)
  | Raise e =>
      Return (JDict [("status", JStr "unhealthy");
                     ("error", JStr (str_exn e))]%string)
  end.

(** ** The chat endpoints ([app/api/v1/endpoints/chat.py])

    An endpoint either returns a value or raises [HTTPException]; the caller
    has been authenticated and is known by its [user_id]. *)

Inductive HTTPResult (A : Type) :=
| Responded (a : A)
| HTTPException (status_code : Z) (detail : string).
Arguments Responded {A} a.
Arguments HTTPException {A} status_code detail.

Definition user_key (user_id : string) : string := ("user:" ++ user_id)%string.

Definition chat_completions (settings : Settings) (self : LLMService)
    (provider : CreateArgs -> outcome Completion.t) (request : ChatRequest)
    (user_id : string) (w : World) : HTTPResult json * World :=
  match is_allowed settings (user_key user_id) 1 w with
  | (Return true, w1) =>
      match create_chat_completion self provider request with
      | Return response => (Responded response, w1)
      | Raise e => (HTTPException 500 "Internal server error", w1)
      end
  | (Return false, w1) => (HTTPException 429 "Rate limit exceeded", w1)
  | (Raise e, w1) => (HTTPException 500 "Internal server error", w1)
  end.

Record StreamingResponse := {
  body : Generated string;
  media_type : string;
  headers : list (string * string)
}.

(** [request.stream = True] *)
Definition enable_streaming (request : ChatRequest) : ChatRequest :=
  {| messages := messages request; model := model request;
     temperature := temperature request; max_tokens := max_tokens request;
     top_p := top_p request; frequency_penalty := frequency_penalty request;
     presence_penalty := presence_penalty request;
     stream := Some true; user := user request |}.

Definition chat_completions_stream (settings : Settings) (self : LLMService)
    (upstream : CreateArgs -> Upstream) (request : ChatRequest)
    (user_id : string) (w : World) : HTTPResult StreamingResponse * World :=
  match is_allowed settings (user_key user_id) 1 w with
  | (Return true, w1) =>
      (Responded
         {| body := generate_stream self upstream (enable_streaming request);
            media_type := "text/event-stream";
            headers := [("Cache-Control", "no-cache");
                        ("Connection", "keep-alive");
                        ("X-Accel-Buffering", "no")]%string |},
       w1)
  | (Return false, w1) => (HTTPException 429 "Rate limit exceeded", w1)
  | (Raise e, w1) => (HTTPException 500 "Internal server error", w1)
  end.

(** [get_available_models], the endpoint. *)
Definition get_available_models (listing : outcome (list string))
    : HTTPResult json :=
  match service_get_available_models listing with
  | Return models => Responded (JDict [("models"%string, JList (map JStr models))])
  | Raise e => HTTPException 500 "Failed to retrieve models"
  end.

(** ** More concrete values used in examples *)

Definition unreachable_world : World := redis_world 1000 dead_redis.

Definition chat_scope (host : option string) : Scope :=
  {| scope_type := "http"; path := "/api/v1/chat/completions";
     client_host := host |}.

Definition websocket_scope : Scope :=
  {| scope_type := "websocket"; path := "/api/v1/chat/completions";
     client_host := Some "10.0.0.7"%string |}.

Definition failing_provider (args : CreateArgs) : outcome Completion.t :=
  Raise (APIError "upstream is down").

Definition failing_upstream (args : CreateArgs) : Upstream :=
  OpenFails (APIError "upstream is down").

(** ** Reading streams *)

(** The text a chunk carries in its first choice, and the text an outbound
    event carries in its delta; the empty string when there is none. *)
Definition chunk_text (chunk : Chunk.t) : string :=
  match Chunk.choices chunk with
  | choice :: _ =>
      match Chunk.delta choice with
      | Some d => default ""%string (Chunk.content d)
      | None => ""%string
      end
  | [] => ""%string
  end.

Definition event_text (event : json) : string :=
  match event_delta event with
  | Some d =>
      match json_get "content" d with
      | Some (JStr text) => text
      | _ => ""%string
      end
  | None => ""%string
  end.

(** [chunk.choices[0]], when the chunk has a choice. *)
Definition first_choice (chunk : Chunk.t) : option Chunk.Choice :=
  head (Chunk.choices chunk).

Definition concat_strings (l : list string) : string :=
  fold_right String.append ""%string l.

(** A chunk the loop body can process: it has no choice, or its first choice
    has a delta. *)
Definition well_formed (chunk : Chunk.t) : bool :=
  match Chunk.choices chunk with
  | choice :: _ => match Chunk.delta choice with Some _ => true | None => false end
  | [] => true
  end.

(** The number of events one chunk gives. *)
Definition events_of (chunk : Chunk.t) : nat :=
  (if carries_content chunk then 1 else 0)
  + (if carries_finish chunk then 1 else 0).

(** Printable ASCII, the range [json.dumps] keeps its output in. *)
Definition printable (c : ascii) : bool :=
  ((32 <=? N_of_ascii c) && (N_of_ascii c <=? 126))%N.

Fixpoint all_printable (s : string) : bool :=
  match s with
  | EmptyString => true
  | String c rest => printable c && all_printable rest
  end.

(** A chunk whose first choice has no delta object. *)
Definition malformed_chunk : Chunk.t :=
  {| Chunk.id := "chatcmpl-1"; Chunk.object := "chat.completion.chunk";
     Chunk.created := 1700000000; Chunk.model := "sonar";
     Chunk.choices := [{| Chunk.index := 0; Chunk.delta := None;
                          Chunk.finish_reason := None |}] |}.

(** The frame of an event of a [demo_chunk], spelled out character by
    character, given the text of its delta and of its finish reason. *)
Definition demo_frame_text (delta finish : string) : string :=
  ("data: {" ++ quoted "id" ++ ": " ++ quoted "chatcmpl-1" ++ ", "
   ++ quoted "object" ++ ": " ++ quoted "chat.completion.chunk" ++ ", "
   ++ quoted "created" ++ ": 1700000000, "
   ++ quoted "model" ++ ": " ++ quoted "sonar" ++ ", "
   ++ quoted "choices" ++ ": [{" ++ quoted "index" ++ ": 0, "
   ++ quoted "delta" ++ ": " ++ delta ++ ", "
   ++ quoted "finish_reason" ++ ": " ++ finish ++ "}]}"
   ++ String "010" (String "010" ""))%string.

(** ** Users ([app/services/auth_service.py], [app/api/v1/endpoints/auth.py])

    The [users] table is the list of its rows in insertion order.  The
    functions of [app.core.security] that the service and the endpoints
    call (password hashing and checking, token creation) and the token
    lifetime of the settings are parameters of the section. *)

Module Row.

(** One row of [users], column by column. *)
Record t := {
  id : string;
  username : string;
  email : string;
  hashed_password : string;
  is_active : bool;
  created_at : string;
  updated_at : string
}.

End Row.

Module UserCreate.

Record t := {
  username : string;
  email : string;
  password : string
}.

End UserCreate.

Module LoginRequest.

Record t := {
  username : string;
  password : string
}.

End LoginRequest.

Module UserResponse.

Record t := {
  id : string;
  username : string;
  email : string;
  is_active : bool;
  created_at : string
}.

End UserResponse.

Module TokenResponse.

Record t := {
  access_token : string;
  token_type : string;
  expires_in : Z
}.

End TokenResponse.

(** What [create_user] reads from its environment: the fresh identifier, the
    two readings of [datetime.utcnow()], and the time stamp the database
    fills in for [updated_at]. *)
Record Readings := {
  uuid4 : string;
  utcnow_insert : string;
  utcnow_return : string;
  current_timestamp : string
}.

Inductive db_outcome (A : Type) :=
| Stored (a : A)
| IntegrityError.
Arguments Stored {A} a.
Arguments IntegrityError {A}.

Definition taken (column : Row.t -> string) (value : string)
    (users : list Row.t) : bool :=
  existsb (fun row => String.eqb (column row) value) users.

(** [INSERT INTO users]: refused when the primary key or one of the two
    [UNIQUE] columns is already present; the table is then left as it was.
    Which constraint the database names in its message is not modelled: no
    caller reads it. *)
Definition insert_user (users : list Row.t) (row : Row.t)
    : db_outcome unit * list Row.t :=
  if taken Row.id (Row.id row) users
     || taken Row.username (Row.username row) users
     || taken Row.email (Row.email row) users
  then (IntegrityError, users)
  else (Stored tt, users ++ [row]).

(** [SELECT * FROM users WHERE username = ?] and [fetchone]. *)
Definition get_user_by_username (users : list Row.t) (username : string)
    : option Row.t :=
  List.find (fun row => String.eqb (Row.username row) username) users.

Definition get_user_by_id (users : list Row.t) (user_id : string)
    : option Row.t :=
  List.find (fun row => String.eqb (Row.id row) user_id) users.

Definition get_user_by_email (users : list Row.t) (email : string)
    : option Row.t :=
  List.find (fun row => String.eqb (Row.email row) email) users.

(** [UPDATE users SET updated_at = ? WHERE id = ?] *)
Definition update_user_last_login (users : list Row.t) (user_id now : string)
    : list Row.t :=
  map (fun row =>
         if String.eqb (Row.id row) user_id then
           {| Row.id := Row.id row; Row.username := Row.username row;
              Row.email := Row.email row;
              Row.hashed_password := Row.hashed_password row;
              Row.is_active := Row.is_active row;
              Row.created_at := Row.created_at row;
              Row.updated_at := now |}
         else row)
      users.

Section Users.

Variable get_password_hash : string -> string.
Variable verify_password : string -> string -> bool.
Variable create_access_token : string -> Z -> string.
Variable ACCESS_TOKEN_EXPIRE_MINUTES : Z.

Definition create_user (users : list Row.t) (env : Readings)
    (user_create : UserCreate.t) : db_outcome UserResponse.t * list Row.t :=
  let user_id := uuid4 env in
  let hashed_password := get_password_hash (UserCreate.password user_create) in
  match insert_user users
          {| Row.id := user_id;
             Row.username := UserCreate.username user_create;
             Row.email := UserCreate.email user_create;
             Row.hashed_password := hashed_password;
             Row.is_active := true;
             Row.created_at := utcnow_insert env;
             Row.updated_at := current_timestamp env |} with
  | (Stored _, users') =>
      (Stored {| UserResponse.id := user_id;
                 UserResponse.username := UserCreate.username user_create;
                 UserResponse.email := UserCreate.email user_create;
                 UserResponse.is_active := true;
                 UserResponse.created_at := utcnow_return env |},
       users')
  | (IntegrityError, users') => (IntegrityError, users')
  end.

Definition authenticate_user (users : list Row.t) (username password : string)
    : option Row.t :=
  match get_user_by_username users username with
  | None => None
  | Some user =>
      if negb (verify_password password (Row.hashed_password user)) then None
      else if negb (Row.is_active user) then None
      else Some user
  end.

(** The [login] endpoint. *)
Definition login (users : list Row.t) (login_request : LoginRequest.t)
    : HTTPResult TokenResponse.t :=
  match authenticate_user users (LoginRequest.username login_request)
          (LoginRequest.password login_request) with
  | None => HTTPException 401 "Incorrect username or password"
  | Some user =>
      Responded
        {| TokenResponse.access_token :=
             create_access_token (Row.id user) ACCESS_TOKEN_EXPIRE_MINUTES;
           TokenResponse.token_type := "bearer";
           TokenResponse.expires_in := ACCESS_TOKEN_EXPIRE_MINUTES * 60 |}
  end.

(** The [register] endpoint. *)
Definition register (users : list Row.t) (env : Readings)
    (user_create : UserCreate.t) : HTTPResult UserResponse.t * list Row.t :=
  match get_user_by_username users (UserCreate.username user_create) with
  | Some _ => (HTTPException 400 "Username already registered", users)
  | None =>
      match create_user users env user_create with
      | (Stored user, users') => (Responded user, users')
      | (IntegrityError, users') =>
          (HTTPException 500 "Registration failed", users')
      end
  end.

(** The [/me] endpoint, for an authenticated caller. *)
Definition get_current_user_info (users : list Row.t) (user_id : string)
    : HTTPResult UserResponse.t :=
  match get_user_by_id users user_id with
  | None => HTTPException 404 "User not found"
  | Some user =>
      Responded {| UserResponse.id := Row.id user;
                   UserResponse.username := Row.username user;
                   UserResponse.email := Row.email user;
                   UserResponse.is_active := Row.is_active user;
                   UserResponse.created_at := Row.created_at user |}
  end.

End Users.

(** The three uniqueness constraints of the table. *)
Definition unique_users (users : list Row.t) : Prop :=
  List.NoDup (map Row.id users)
  /\ List.NoDup (map Row.username users)
  /\ List.NoDup (map Row.email users).

(** ** Concrete users used in examples *)

Definition toy_hash (password : string) : string := ("h:" ++ password)%string.

Definition toy_verify (password hashed : string) : bool :=
  String.eqb (toy_hash password) hashed.

Definition toy_token (subject : string) (minutes : Z) : string :=
  ("token-for-" ++ subject)%string.

Definition alice_create : UserCreate.t :=
  {| UserCreate.username := "alice"; UserCreate.email := "alice@example.org";
     UserCreate.password := "correct horse" |}.

Definition alice_readings : Readings :=
  {| uuid4 := "id-1"; utcnow_insert := "2024-01-01T00:00:00";
     utcnow_return := "2024-01-01T00:00:01";
     current_timestamp := "2024-01-01 00:00:00" |}.

Definition alice_row : Row.t :=
  {| Row.id := "id-1"; Row.username := "alice";
     Row.email := "alice@example.org";
     Row.hashed_password := toy_hash "correct horse";
     Row.is_active := true; Row.created_at := "2024-01-01T00:00:00";
     Row.updated_at := "2024-01-01 00:00:00" |}.

(** A second person who gives Alice's address under another name. *)
Definition mallory_create : UserCreate.t :=
  {| UserCreate.username := "mallory"; UserCreate.email := "alice@example.org";
     UserCreate.password := "password1" |}.

Definition mallory_readings : Readings :=
  {| uuid4 := "id-2"; utcnow_insert := "2024-01-02T00:00:00";
     utcnow_return := "2024-01-02T00:00:00";
     current_timestamp := "2024-01-02 00:00:00" |}.

(** * Part II: properties *)

Example memory_first_call :
  fst (_memory_rate_limit demo_settings "user:42" 1 (fresh_world 1000)) = Return true.
Proof. vm_compute. reflexivity. Qed.

Example redis_first_call :
  fst (is_allowed demo_settings "user:42" 1 (redis_world 1000 live_redis)) = Return true.
Proof. vm_compute. reflexivity. Qed.

(** ** Arithmetic helpers *)


Lemma py_min_le_l (a b : Q) : py_min a b <= a.
Proof.
  unfold py_min. destruct (Qle_bool a b) eqn:E; [lra|].
  assert (H : ~ a <= b) by (intro H; apply Qle_bool_iff in H; congruence). lra.
Qed.

Lemma py_min_le_r (a b : Q) : py_min a b <= b.
Proof.
  unfold py_min. destruct (Qle_bool a b) eqn:E; [|lra].
  apply Qle_bool_iff in E. exact E.
Qed.

Lemma py_min_glb (a b c : Q) : c <= a -> c <= b -> c <= py_min a b.
Proof. unfold py_min. destruct (Qle_bool a b); auto. Qed.

Lemma ge_int_true (x : Q) (n : Z) : ge_int x n = true <-> inject_Z n <= x.
Proof. unfold ge_int. apply Qle_bool_iff. Qed.

Lemma ge_int_false (x : Q) (n : Z) : ge_int x n = false <-> x < inject_Z n.
Proof.
  unfold ge_int. split; intro H.
  - destruct (Qlt_le_dec x (inject_Z n)) as [L|L]; [exact L|].
    apply Qle_bool_iff in L. congruence.
  - destruct (Qle_bool (inject_Z n) x) eqn:E; [|reflexivity].
    apply Qle_bool_iff in E. lra.
Qed.

Lemma inject_Z_pos (z : Z) : (0 < z)%Z -> 0 < inject_Z z.
Proof. intros H. unfold Qlt, inject_Z. simpl. lia. Qed.

Lemma inject_Z_nonneg (z : Z) : (0 <= z)%Z -> 0 <= inject_Z z.
Proof. intros H. unfold Qle, inject_Z. simpl. lia. Qed.

(** ** What one call does *)

Section OneCheck.

Variable settings : Settings.

Local Abbreviation REQ := (RATE_LIMIT_REQUESTS settings).
Local Abbreviation WINDOW := (RATE_LIMIT_WINDOW settings).

Lemma memory_rate_limit_eq (key : string) (n : Z) (w : World) :
  WINDOW <> 0%Z ->
  _memory_rate_limit settings key n w =
    (Return (ge_int (tokens (refilled (prior_bucket settings w key) (clock w))) n),
     with_buckets w (<[key := charged (prior_bucket settings w key) (clock w) n]>
                       (local_buckets (limiter w)))).
Proof.
  intros HW. apply Z.eqb_neq in HW.
  unfold _memory_rate_limit, prior_bucket, charged, with_buckets, new_bucket,
    truediv, get_buckets, put_bucket, get_limiter, put_limiter,
    time_time, bind, ret.
  rewrite HW.
  destruct (local_buckets (limiter w) !! key) as [b|] eqn:Hb; simpl.
  - destruct (ge_int _ n); simpl; rewrite ?insert_insert_eq; reflexivity.
  - fold (full_bucket settings (clock w)).
    destruct (ge_int _ n); simpl; rewrite ?insert_insert_eq; reflexivity.
Qed.

Lemma memory_rate_limit_zero_window (key : string) (n : Z) (w : World) :
  WINDOW = 0%Z ->
  local_buckets (limiter w) !! key = None ->
  _memory_rate_limit settings key n w = (Raise ZeroDivisionError, w).
Proof.
  intros HW Hb.
  unfold _memory_rate_limit, new_bucket, truediv, get_buckets, get_limiter,
    time_time, bind, ret, raise. simpl.
  rewrite Hb, HW. reflexivity.
Qed.

Lemma redis_rate_limit_eq (key : string) (n : Z) (w : World) (r : Redis) :
  WINDOW <> 0%Z ->
  redis_client (limiter w) = Some r ->
  reachable r = true ->
  _redis_rate_limit settings key n w =
    (Return (ge_int (redis_refreshed settings r (clock w) key) n),
     if ge_int (redis_refreshed settings r (clock w) key) n
     then with_client w (redis_saved settings r (clock w) key n)
     else w).
Proof.
  intros HW Hc Hr. apply Z.eqb_neq in HW.
  unfold _redis_rate_limit, redis_saved, redis_refreshed, redis_prior,
    with_client, hgetall, execute, get_client, put_client, truediv,
    get_limiter, put_limiter, time_time, bind, ret.
  rewrite HW, Hc, Hr.
  destruct (is_empty_dict _); cbn [fst snd];
    (destruct (ge_int _ n); [rewrite Hc, Hr|]; reflexivity).
Qed.

Lemma redis_rate_limit_unreachable (key : string) (n : Z) (w : World) (r : Redis) :
  redis_client (limiter w) = Some r ->
  reachable r = false ->
  _redis_rate_limit settings key n w = (Raise ConnectionError, w).
Proof.
  intros Hc Hr.
  unfold _redis_rate_limit, hgetall, get_client, get_limiter, time_time,
    bind, ret, raise. simpl.
  rewrite Hc. simpl. rewrite Hr. reflexivity.
Qed.

Lemma is_allowed_memory (key : string) (n : Z) (w : World) :
  redis_client (limiter w) = None ->
  is_allowed settings key n w = _memory_rate_limit settings key n w.
Proof.
  intros Hc. unfold is_allowed, get_limiter. unfold bind at 1.
  rewrite Hc. reflexivity.
Qed.

Lemma is_allowed_redis (key : string) (n : Z) (w : World)
      (r : Redis) :
  redis_client (limiter w) = Some r ->
  is_allowed settings key n w = _redis_rate_limit settings key n w.
Proof.
  intros Hc. unfold is_allowed, get_limiter. unfold bind at 1.
  rewrite Hc. reflexivity.
Qed.

Lemma is_allowed_eq (key : string) (n : Z) (w : World) :
  WINDOW <> 0%Z ->
  backend_up w ->
  is_allowed settings key n w
  = (Return (ge_int (refreshed_tokens settings w key) n), after_check settings w key n).
Proof.
  intros HW Hup. unfold refreshed_tokens, after_check.
  destruct (redis_client (limiter w)) as [r|] eqn:Hc.
  - rewrite (is_allowed_redis key n w r Hc).
    apply redis_rate_limit_eq; auto.
  - rewrite (is_allowed_memory key n w Hc).
    apply memory_rate_limit_eq; auto.
Qed.

Lemma refreshed_tokens_eq (w : World) (key : string) :
  refreshed_tokens settings w key
  = py_min (inject_Z (prior_capacity settings w key))
           (prior_tokens settings w key
            + (clock w - prior_last_refill settings w key) * prior_rate settings w key).
Proof.
  unfold refreshed_tokens, prior_capacity, prior_tokens, prior_last_refill,
    prior_rate.
  destruct (redis_client (limiter w)); reflexivity.
Qed.

Lemma stored_bucket_memory (w : World) (key : string) (b : TokenBucket)
      (m : gmap string TokenBucket) :
  redis_client (limiter w) = None ->
  stored_bucket (with_buckets w (<[key := b]> m)) key
  = Some (tokens b, last_refill b).
Proof.
  intros Hc. unfold stored_bucket, with_buckets. simpl.
  rewrite Hc, lookup_insert_eq. reflexivity.
Qed.

Lemma charged_tokens (b : TokenBucket) (t : Q) (n : Z) :
  tokens (charged b t n)
  = if ge_int (tokens (refilled b t)) n
    then tokens (refilled b t) - inject_Z n
    else tokens (refilled b t).
Proof. unfold charged. destruct (ge_int _ n); reflexivity. Qed.

Lemma charged_last_refill (b : TokenBucket) (t : Q) (n : Z) :
  last_refill (charged b t n) = t.
Proof. unfold charged. destruct (ge_int _ n); reflexivity. Qed.

Lemma charged_capacity (b : TokenBucket) (t : Q) (n : Z) :
  capacity (charged b t n) = capacity b.
Proof. unfold charged. destruct (ge_int _ n); reflexivity. Qed.

Lemma charged_refill_rate (b : TokenBucket) (t : Q) (n : Z) :
  refill_rate (charged b t n) = refill_rate b.
Proof. unfold charged. destruct (ge_int _ n); reflexivity. Qed.

Lemma bucket_mapping_tokens (x t : Q) (h : gmap string Q) :
  (bucket_mapping x t ∪ h) !! "tokens"%string = Some x.
Proof.
  apply lookup_union_Some_l. unfold bucket_mapping. apply lookup_insert_eq.
Qed.

Lemma bucket_mapping_last_refill (x t : Q) (h : gmap string Q) :
  (bucket_mapping x t ∪ h) !! "last_refill"%string = Some t.
Proof.
  apply lookup_union_Some_l. unfold bucket_mapping.
  rewrite lookup_insert_ne by discriminate. apply lookup_insert_eq.
Qed.

Lemma redis_saved_hash (r : Redis) (now : Q) (key : string) (n : Z) :
  (0 < WINDOW)%Z ->
  hashes (redis_saved settings r now key n) !! bucket_name key
  = Some (bucket_mapping (redis_refreshed settings r now key - inject_Z n) now
            ∪ live_hash r now (bucket_name key)).
Proof.
  intros HW. unfold redis_saved, fold_left, apply_command.
  assert (E : (0 <? WINDOW * 2)%Z = true) by (apply Z.ltb_lt; lia).
  rewrite E. cbn [hashes]. apply lookup_insert_eq.
Qed.

Lemma redis_saved_deadline (r : Redis) (now : Q) (key : string) (n : Z) :
  (0 < WINDOW)%Z ->
  deadlines (redis_saved settings r now key n) !! bucket_name key
  = Some (now + inject_Z (WINDOW * 2)).
Proof.
  intros HW. unfold redis_saved, fold_left, apply_command.
  assert (E : (0 <? WINDOW * 2)%Z = true) by (apply Z.ltb_lt; lia).
  rewrite E. cbn [deadlines]. apply lookup_insert_eq.
Qed.

Lemma expired_past (r : Redis) (now : Q) (name : string) (d : Q) :
  deadlines r !! name = Some d ->
  expired r now name = negb (Qle_bool now d).
Proof. intros E. unfold expired. rewrite E. reflexivity. Qed.

Lemma expired_true (r : Redis) (now : Q) (name : string) (d : Q) :
  deadlines r !! name = Some d -> d < now -> expired r now name = true.
Proof.
  intros E H. rewrite (expired_past r now name d E).
  destruct (Qle_bool now d) eqn:L; [|reflexivity].
  apply Qle_bool_iff in L. lra.
Qed.

Lemma expired_false (r : Redis) (now : Q) (name : string) (d : Q) :
  deadlines r !! name = Some d -> now <= d -> expired r now name = false.
Proof.
  intros E H. rewrite (expired_past r now name d E).
  apply Qle_bool_iff in H. rewrite H. reflexivity.
Qed.

(** What a passed check wrote is read back up to its deadline, the deadline
    included. *)
Lemma redis_saved_live_until (r : Redis) (now t : Q) (key : string) (n : Z) :
  (0 < WINDOW)%Z ->
  t <= now + inject_Z (WINDOW * 2) ->
  live_hash (redis_saved settings r now key n) t (bucket_name key)
  = bucket_mapping (redis_refreshed settings r now key - inject_Z n) now
      ∪ live_hash r now (bucket_name key).
Proof.
  intros HW Ht. unfold live_hash at 1.
  rewrite (expired_false _ t _ _ (redis_saved_deadline r now key n HW) Ht).
  rewrite redis_saved_hash by exact HW. reflexivity.
Qed.

Lemma redis_saved_live (r : Redis) (now : Q) (key : string) (n : Z) :
  (0 < WINDOW)%Z ->
  live_hash (redis_saved settings r now key n) now (bucket_name key)
  = bucket_mapping (redis_refreshed settings r now key - inject_Z n) now
      ∪ live_hash r now (bucket_name key).
Proof.
  intros HW. apply redis_saved_live_until; [exact HW|].
  assert (0 < inject_Z (WINDOW * 2)) by (apply inject_Z_pos; lia). lra.
Qed.

Lemma stored_bucket_redis (w : World) (r : Redis) (key : string) (n : Z) :
  (0 < WINDOW)%Z ->
  stored_bucket (with_client w (redis_saved settings r (clock w) key n)) key
  = Some (redis_refreshed settings r (clock w) key - inject_Z n, clock w).
Proof.
  intros HW. unfold stored_bucket, with_client. cbn [limiter redis_client clock].
  rewrite redis_saved_live by exact HW.
  rewrite bucket_mapping_tokens, bucket_mapping_last_refill. reflexivity.
Qed.

End OneCheck.

(** ** Backend failure during a call *)

(** C2, as the design document states it, fails: with a configured client
    whose server cannot be reached, [is_allowed] returns no decision. *)
Lemma is_allowed_degrades_counterexample :
  ~ exists (b : bool) (w' : World),
      is_allowed demo_settings "user:42" 1 (redis_world 1000 dead_redis)
      = (Return b, w').
Proof.
  intros (b & w' & H). vm_compute in H. discriminate H.
Qed.

(** C2 (amended): when the limiter has a Redis client and the server fails
    during a call, [is_allowed] raises the error to its caller; the in-process
    buckets are not consulted and the whole state, the client included, is
    left as it was.  The in-process path runs only for a limiter without a
    client, which is what [initialize] leaves behind when its probe fails. *)
Theorem is_allowed_redis_error_propagates
    (settings : Settings) (key : string) (n : Z) (w : World) (r : Redis) :
  redis_client (limiter w) = Some r ->
  reachable r = false ->
  is_allowed settings key n w = (Raise ConnectionError, w)
  /\ (forall w0, redis_client (limiter w0) = None ->
        is_allowed settings key n w0 = _memory_rate_limit settings key n w0)
  /\ (forall server w0, reachable server = false ->
        redis_client (limiter (snd (initialize server w0))) = None).
Proof.
  intros Hc Hr. split; [|split].
  - rewrite (is_allowed_redis settings key n w r Hc).
    apply redis_rate_limit_unreachable with (r := r); assumption.
  - intros w0 H0. apply is_allowed_memory. exact H0.
  - intros server w0 Hs. unfold initialize, get_limiter, put_limiter, bind.
    simpl. rewrite Hs. reflexivity.
Qed.

Lemma is_allowed_redis_error_propagates_witness :
  is_allowed demo_settings "user:42" 1 (redis_world 1000 dead_redis)
  = (Raise ConnectionError, redis_world 1000 dead_redis).
Proof.
  apply (is_allowed_redis_error_propagates demo_settings "user:42" 1
           (redis_world 1000 dead_redis) dead_redis); reflexivity.
Defined.

(** ** Persistence of the bucket state *)

(** The reading of the design document fails on the Redis path: a check that
    is turned down ten seconds after the bucket was emptied writes nothing,
    so the store still holds the refill time 1000 and not 1010. *)
Lemma rejected_check_persists_counterexample :
  ~ persists_refreshed demo_settings (redis_world 1010 drained_redis) "user:42" 1.
Proof.
  intros H.
  destruct (H false (redis_world 1010 drained_redis)) as (x & t & Hs & Ht & _).
  - vm_compute. reflexivity.
  - vm_compute in Hs. injection Hs as Hx Hlast. subst t.
    unfold Qeq in Ht. simpl in Ht. discriminate Ht.
Qed.

(** What a check that the backend answers leaves in the store, path by
    path, for a positive window: the in-process path stores the refreshed
    count (less the cost when the check passed) and the time of the check on
    every call; the Redis path stores them, with a deadline of twice the
    window from the check, only when the check passes, and leaves the whole
    state as it was when it turns the check down. *)
Lemma check_persistence (settings : Settings) (key : string) (n : Z) (w : World) :
  (0 < RATE_LIMIT_WINDOW settings)%Z ->
  backend_up w ->
  exists (b : bool) (w' : World),
    is_allowed settings key n w = (Return b, w')
    /\ b = ge_int (refreshed_tokens settings w key) n
    /\ match redis_client (limiter w), b with
       | Some _, false => w' = w
       | Some _, true =>
           stored_bucket w' key
           = Some (refreshed_tokens settings w key - inject_Z n, clock w)
           /\ (exists r', redis_client (limiter w') = Some r'
                /\ deadlines r' !! bucket_name key
                   = Some (clock w + inject_Z (RATE_LIMIT_WINDOW settings * 2)))
       | None, true =>
           stored_bucket w' key
           = Some (refreshed_tokens settings w key - inject_Z n, clock w)
       | None, false =>
           stored_bucket w' key = Some (refreshed_tokens settings w key, clock w)
       end.
Proof.
  intros HW Hup.
  exists (ge_int (refreshed_tokens settings w key) n), (after_check settings w key n).
  split; [apply is_allowed_eq; [lia | exact Hup] |]. split; [reflexivity|].
  unfold after_check, refreshed_tokens.
  destruct (redis_client (limiter w)) as [r|] eqn:Hc.
  - destruct (ge_int _ n); [|reflexivity].
    split; [apply stored_bucket_redis; exact HW|].
    eexists. split; [reflexivity|].
    apply redis_saved_deadline. exact HW.
  - rewrite stored_bucket_memory by exact Hc.
    rewrite charged_tokens, charged_last_refill.
    destruct (ge_int _ n); reflexivity.
Qed.

(** C1: the Redis path does not store the refreshed state of a check it
    turns down, which the design document asks for and the in-process path
    does.  Quota 3, window 60 seconds, the bucket of "user:42" emptied at
    time 1000, a check of cost 1 at time 1010, when half a token has been
    refilled.  On the Redis path the check is turned down and the whole
    state, the stored hash with it, is what it was: tokens 0 and refill time
    1000.  On the in-process path the same check is turned down and the
    bucket then holds the refreshed half token and the refill time 1010. *)
Theorem redis_rejection_writes_nothing :
  stored_bucket (redis_world 1010 drained_redis) "user:42" = Some (0, 1000)
  /\ refreshed_tokens demo_settings (redis_world 1010 drained_redis) "user:42"
     == 1 # 2
  /\ is_allowed demo_settings "user:42" 1 (redis_world 1010 drained_redis)
     = (Return false, redis_world 1010 drained_redis)
  /\ (exists x t : Q,
        stored_bucket (set_clock 1010 emptied_world) "user:42" = Some (x, t)
        /\ x == 0 /\ t == 1000)
  /\ fst (is_allowed demo_settings "user:42" 1 (set_clock 1010 emptied_world))
     = Return false
  /\ exists x t : Q,
       stored_bucket
         (snd (is_allowed demo_settings "user:42" 1 (set_clock 1010 emptied_world)))
         "user:42" = Some (x, t)
       /\ x == 1 # 2 /\ t == 1010.
Proof.
  split; [vm_compute; reflexivity|].
  split; [vm_compute; reflexivity|].
  split; [vm_compute; reflexivity|].
  split.
  { eexists _, _. split; [vm_compute; reflexivity|].
    split; vm_compute; reflexivity. }
  split; [vm_compute; reflexivity|].
  eexists _, _. split; [vm_compute; reflexivity|].
  split; vm_compute; reflexivity.
Qed.

(** ** The refill computation *)


Lemma is_allowed_decision (settings : Settings) (key : string) (n : Z) (w : World) :
  RATE_LIMIT_WINDOW settings <> 0%Z ->
  backend_up w ->
  fst (is_allowed settings key n w)
  = Return (ge_int (refreshed_tokens settings w key) n).
Proof. intros HW Hup. rewrite is_allowed_eq by assumption. reflexivity. Qed.





Example idle_window_check_rejected :
  fst (Binary64.checks slow_settings "user:42"
         [(Binary64.of_int 1000, 1%Z); (Binary64.of_int 1049, 1%Z)] ∅)
  = [Return true; Return false].
Proof. vm_compute. reflexivity. Qed.

(** Two windows of idling survive the rounding at that input. *)
Example idle_two_windows_refills :
  Binary64.idle_window_refills slow_settings "user:42" spent_buckets
    (Binary64.of_int 1098)
  /\ fst (Binary64.checks slow_settings "user:42"
            [(Binary64.of_int 1000, 1%Z); (Binary64.of_int 1098, 1%Z)] ∅)
     = [Return true; Return true].
Proof.
  split; [|vm_compute; reflexivity].
  intros bucket Hb _.
  assert (E : spent_buckets !! "user:42"%string
              = Some {| Binary64.capacity := 1;
                        Binary64.refill_rate :=
                          PrimFloat.div (Binary64.of_int 1) (Binary64.of_int 49);
                        Binary64.tokens := Binary64.of_int 0;
                        Binary64.last_refill := Binary64.of_int 1000 |})
    by (vm_compute; reflexivity).
  rewrite E in Hb. injection Hb as <-. vm_compute. reflexivity.
Qed.



(** ** Bounds on the token count *)

Section Bounds.

Variable settings : Settings.
Variable key : string.

Local Abbreviation REQ := (RATE_LIMIT_REQUESTS settings).
Local Abbreviation WINDOW := (RATE_LIMIT_WINDOW settings).

Hypothesis window_pos : (0 < WINDOW)%Z.
Hypothesis requests_nonneg : (0 <= REQ)%Z.

Lemma rate_nonneg : 0 <= inject_Z REQ / inject_Z WINDOW.
Proof.
  apply Qle_shift_div_l; [apply inject_Z_pos; exact window_pos|].
  assert (0 <= inject_Z REQ) by (apply inject_Z_nonneg; exact requests_nonneg). lra.
Qed.

Lemma redis_prior_cases (r : Redis) (now : Q) :
  redis_prior settings r now key = (inject_Z REQ, now)
  \/ exists h, hashes r !! bucket_name key = Some h
       /\ redis_prior settings r now key
          = (default 0 (h !! "tokens"%string),
             default now (h !! "last_refill"%string)).
Proof.
  unfold redis_prior, live_hash.
  destruct (expired r now (bucket_name key)).
  - left. reflexivity.
  - destruct (hashes r !! bucket_name key) as [h|] eqn:Hh; simpl.
    + destruct (is_empty_dict h); [left; reflexivity|].
      right. exists h. split; reflexivity.
    + left. reflexivity.
Qed.

(** What a check reads from a state that satisfies the invariant. *)
Lemma prior_facts (w : World) :
  bucket_inv settings w key ->
  prior_capacity settings w key = REQ
  /\ prior_rate settings w key = inject_Z REQ / inject_Z WINDOW
  /\ 0 <= prior_tokens settings w key
  /\ prior_tokens settings w key <= inject_Z REQ
  /\ prior_last_refill settings w key <= clock w.
Proof.
  assert (Hq : 0 <= inject_Z REQ) by (apply inject_Z_nonneg; exact requests_nonneg).
  unfold bucket_inv, prior_capacity, prior_rate, prior_tokens, prior_last_refill.
  destruct (redis_client (limiter w)) as [r|]; intros Hinv.
  - split; [reflexivity|]. split; [reflexivity|].
    destruct (redis_prior_cases r (clock w)) as [E|(h & Hh & E)]; rewrite E; simpl.
    + repeat split; lra.
    + destruct (Hinv h Hh) as (x & t & Hx & Ht & H0 & H1 & H2).
      rewrite Hx, Ht. simpl. repeat split; assumption.
  - unfold prior_bucket.
    destruct (local_buckets (limiter w) !! key) as [b|]; simpl.
    + destruct (Hinv b eq_refl) as (Hc & Hr & H0 & H1 & H2).
      repeat split; assumption.
    + repeat split; try reflexivity; lra.
Qed.

Lemma refreshed_bounds (w : World) :
  bucket_inv settings w key ->
  prior_tokens settings w key <= refreshed_tokens settings w key
  /\ refreshed_tokens settings w key <= inject_Z REQ.
Proof.
  intros Hinv.
  destruct (prior_facts w Hinv) as (Hc & Hr & H0 & H1 & H2).
  rewrite refreshed_tokens_eq, Hc, Hr. split.
  - apply py_min_glb; [exact H1|].
    assert (0 <= (clock w - prior_last_refill settings w key)
                 * (inject_Z REQ / inject_Z WINDOW)).
    { apply Qmult_le_0_compat; [lra | apply rate_nonneg]. }
    lra.
  - apply py_min_le_l.
Qed.

Lemma bucket_inv_set_clock (w : World) (t : Q) :
  clock w <= t ->
  bucket_inv settings w key ->
  bucket_inv settings (set_clock t w) key.
Proof.
  unfold bucket_inv, set_clock. simpl. intros Ht.
  destruct (redis_client (limiter w)) as [r|]; intros Hinv.
  - intros h Hh. destruct (Hinv h Hh) as (x & t0 & Hx & Ht0 & H0 & H1 & H2).
    exists x, t0. repeat split; try assumption. lra.
  - intros b Hb. destruct (Hinv b Hb) as (Hc & Hr & H0 & H1 & H2).
    repeat split; try assumption. lra.
Qed.

Lemma backend_up_set_clock (w : World) (t : Q) :
  backend_up w -> backend_up (set_clock t w).
Proof. intros H r Hr. apply (H r). exact Hr. Qed.

Lemma redis_saved_reachable (r : Redis) (now : Q) (n : Z) :
  reachable (redis_saved settings r now key n) = reachable r.
Proof.
  unfold redis_saved, fold_left, apply_command.
  destruct (0 <? WINDOW * 2)%Z; reflexivity.
Qed.

Lemma backend_up_after_check (w : World) (n : Z) :
  backend_up w -> backend_up (after_check settings w key n).
Proof.
  unfold backend_up, after_check. intros H.
  destruct (redis_client (limiter w)) as [r|] eqn:Hc.
  - destruct (ge_int _ n).
    + unfold with_client. simpl. intros r' Hr'. injection Hr' as <-.
      rewrite redis_saved_reachable. apply H. reflexivity.
    + rewrite Hc. exact H.
  - unfold with_buckets. simpl. rewrite Hc. intros r' Hr'. discriminate Hr'.
Qed.

Lemma clock_after_check (w : World) (n : Z) :
  clock (after_check settings w key n) = clock w.
Proof.
  unfold after_check.
  destruct (redis_client (limiter w)); [destruct (ge_int _ n)|]; reflexivity.
Qed.

(** The token count read after a check. *)
Lemma prior_tokens_after_check (w : World) (n : Z) :
  prior_tokens settings (after_check settings w key n) key
  = match redis_client (limiter w), ge_int (refreshed_tokens settings w key) n with
    | Some _, false => prior_tokens settings w key
    | _, true => refreshed_tokens settings w key - inject_Z n
    | None, false => refreshed_tokens settings w key
    end.
Proof.
  unfold after_check, refreshed_tokens.
  destruct (redis_client (limiter w)) as [r|] eqn:Hc.
  - destruct (ge_int _ n) eqn:Hd; [|reflexivity].
    unfold prior_tokens, with_client. cbn [limiter redis_client clock].
    unfold redis_prior. rewrite redis_saved_live by exact window_pos.
    assert (Hne : is_empty_dict
                    (bucket_mapping
                       (redis_refreshed settings r (clock w) key - inject_Z n)
                       (clock w)
                     ∪ live_hash r (clock w) (bucket_name key)) = false).
    { unfold is_empty_dict. apply bool_decide_eq_false. intros E.
      pose proof (bucket_mapping_tokens
                    (redis_refreshed settings r (clock w) key - inject_Z n)
                    (clock w) (live_hash r (clock w) (bucket_name key))) as L.
      rewrite E, lookup_empty in L. discriminate L. }
    rewrite Hne. cbn [fst]. rewrite bucket_mapping_tokens. reflexivity.
  - unfold prior_tokens, with_buckets. cbn [limiter redis_client clock].
    rewrite Hc. unfold prior_bucket. cbn [limiter local_buckets].
    rewrite lookup_insert_eq. unfold default. cbn [from_option id].
    rewrite charged_tokens. unfold prior_bucket, default.
    destruct (ge_int _ n); reflexivity.
Qed.

Lemma bucket_inv_after_check (w : World) (n : Z) :
  (0 <= n)%Z ->
  bucket_inv settings w key ->
  bucket_inv settings (after_check settings w key n) key.
Proof.
  intros Hn Hinv.
  assert (Hnq : 0 <= inject_Z n) by (apply inject_Z_nonneg; exact Hn).
  destruct (refreshed_bounds w Hinv) as (Hlo & Hhi).
  destruct (prior_facts w Hinv) as (Hc & Hr & H0 & H1 & H2).
  revert Hinv Hlo Hhi Hc Hr H0 H1 H2.
  unfold bucket_inv, after_check, refreshed_tokens, prior_capacity, prior_rate,
    prior_tokens, prior_last_refill.
  destruct (redis_client (limiter w)) as [r|] eqn:Hcl;
    intros Hinv Hlo Hhi Hc Hr H0 H1 H2.
  - destruct (ge_int _ n) eqn:Hd.
    + unfold with_client. cbn [limiter redis_client clock].
      intros h Hh. rewrite redis_saved_hash in Hh by exact window_pos.
      injection Hh as <-.
      apply ge_int_true in Hd.
      exists (redis_refreshed settings r (clock w) key - inject_Z n), (clock w).
      rewrite bucket_mapping_tokens, bucket_mapping_last_refill.
      repeat split; lra.
    + rewrite Hcl. exact Hinv.
  - unfold with_buckets. cbn [limiter redis_client local_buckets clock].
    rewrite Hcl. intros b Hb. rewrite lookup_insert_eq in Hb. injection Hb as <-.
    rewrite charged_capacity, charged_refill_rate, charged_tokens,
      charged_last_refill.
    split; [exact Hc|]. split; [exact Hr|].
    destruct (ge_int _ n) eqn:Hd.
    + apply ge_int_true in Hd. repeat split; lra.
    + repeat split; lra.
Qed.

(** One check from a state that satisfies the invariant. *)
Lemma check_step_ok (w : World) (n : Z) :
  (0 <= n)%Z ->
  backend_up w ->
  bucket_inv settings w key ->
  step_ok settings key (w, fst (is_allowed settings key n w),
                        snd (is_allowed settings key n w)).
Proof.
  intros Hn Hup Hinv.
  assert (Hnq : 0 <= inject_Z n) by (apply inject_Z_nonneg; exact Hn).
  rewrite is_allowed_eq by (try lia; exact Hup). cbn [fst snd].
  destruct (refreshed_bounds w Hinv) as (Hlo & Hhi).
  destruct (prior_facts w Hinv) as (_ & _ & H0 & H1 & _).
  exists (ge_int (refreshed_tokens settings w key) n).
  split; [reflexivity|].
  rewrite prior_tokens_after_check.
  destruct (redis_client (limiter w));
    destruct (ge_int (refreshed_tokens settings w key) n) eqn:Hd;
    try (apply ge_int_true in Hd);
    repeat split; try lra; intros; try discriminate; lra.
Qed.

Lemma trace_steps_ok (calls : list (Q * Z)) (w : World) :
  backend_up w ->
  bucket_inv settings w key ->
  orderly (clock w) calls ->
  Forall (step_ok settings key) (trace settings key calls w).
Proof.
  revert w. induction calls as [|[t n] rest IH]; intros w Hup Hinv Hord.
  - constructor.
  - destruct Hord as (Ht & Hn & Hrest). cbn [trace].
    pose proof (backend_up_set_clock w t Hup) as Hup0.
    pose proof (bucket_inv_set_clock w t Ht Hinv) as Hinv0.
    pose proof (check_step_ok (set_clock t w) n Hn Hup0 Hinv0) as Hstep.
    rewrite is_allowed_eq in * by (try lia; exact Hup0). cbn [fst snd] in Hstep.
    constructor; [exact Hstep|].
    apply IH.
    + apply backend_up_after_check. exact Hup0.
    + apply bucket_inv_after_check; assumption.
    + rewrite clock_after_check. exact Hrest.
Qed.

End Bounds.

(** C4, as the design document states it, fails: three checks at time 1000
    empty the bucket; a fourth made after the wall clock went back to 940
    leaves it at 0 + (940 - 1000) / 20 = -3 tokens. *)
Lemma tokens_in_bounds_counterexample :
  ~ tokens_in_bounds demo_settings
      (snd (checks demo_settings "user:42"
              [(1000, 1%Z); (1000, 1%Z); (1000, 1%Z); (940, 1%Z)]
              (fresh_world 1000)))
      "user:42".
Proof.
  intros [H _]. vm_compute in H. apply H. reflexivity.
Qed.

(** C4 (amended): with a positive window, a quota that is not negative and
    a backend that answers (no Redis client, or a reachable server), for
    every sequence of checks on one key whose clock readings never go back
    and whose costs are not negative, started from a state that satisfies
    the data-model invariant (an unseen key does): every check returns a
    decision and after it the tokens lie between 0 and the capacity; the
    refill does not lower the count, the count after a check is at most the
    refreshed one, and it is below the count before the check only when the
    check passed. *)
Theorem tokens_stay_in_bounds
    (settings : Settings) (key : string) (calls : list (Q * Z)) (w : World) :
  (0 < RATE_LIMIT_WINDOW settings)%Z ->
  (0 <= RATE_LIMIT_REQUESTS settings)%Z ->
  backend_up w ->
  bucket_inv settings w key ->
  orderly (clock w) calls ->
  Forall (step_ok settings key) (trace settings key calls w).
Proof. intros. apply trace_steps_ok; assumption. Qed.

Lemma tokens_stay_in_bounds_witness :
  Forall (step_ok demo_settings "user:42")
    (trace demo_settings "user:42"
       [(1000, 1%Z); (1000, 1%Z); (1000, 1%Z); (1000, 1%Z); (1060, 1%Z)]
       (fresh_world 1000)).
Proof.
  apply (tokens_stay_in_bounds demo_settings "user:42").
  - reflexivity.
  - discriminate.
  - intros r Hr. discriminate Hr.
  - intros b Hb. cbn in Hb. rewrite lookup_empty in Hb. discriminate Hb.
  - cbn [orderly fresh_world clock].
    repeat split; try (unfold Qle; simpl; lia); lia.
Defined.

(** ** A burst of checks on a full bucket *)

Section Burst.

Variable settings : Settings.
Variable key : string.

Local Abbreviation REQ := (RATE_LIMIT_REQUESTS settings).
Local Abbreviation WINDOW := (RATE_LIMIT_WINDOW settings).
Local Abbreviation rate := (inject_Z REQ / inject_Z WINDOW).

Hypothesis window_pos : (0 < WINDOW)%Z.
Hypothesis requests_pos : (1 <= REQ)%Z.

Lemma checks_seen (calls : list (Q * Z)) (w : World) (b : TokenBucket) :
  redis_client (limiter w) = None ->
  local_buckets (limiter w) !! key = Some b ->
  fst (checks settings key calls w) = map Return (bucket_answers b calls).
Proof.
  revert w b. induction calls as [|[t n] rest IH]; intros w b Hc Hb.
  - reflexivity.
  - cbn [checks bucket_answers map].
    assert (Hup : backend_up (set_clock t w))
      by (intros r Hr; cbn in Hr; congruence).
    rewrite is_allowed_eq by (try lia; exact Hup).
    assert (Hp : prior_bucket settings (set_clock t w) key = b).
    { unfold prior_bucket, set_clock. cbn [limiter]. rewrite Hb. reflexivity. }
    unfold refreshed_tokens, after_check. cbn [set_clock limiter clock].
    rewrite Hc.
    change (prior_bucket settings {| clock := t; limiter := limiter w |} key)
      with (prior_bucket settings (set_clock t w) key).
    rewrite Hp.
    specialize (IH (with_buckets {| clock := t; limiter := limiter w |}
                      (<[key := charged b t n]> (local_buckets (limiter w))))
                   (charged b t n)).
    destruct (checks settings key rest _) as [os w2].
    cbn [fst] in *. rewrite IH; [reflexivity | exact Hc |].
    cbn [with_buckets limiter local_buckets]. apply lookup_insert_eq.
Qed.

Lemma checks_unseen (t : Q) (n : Z) (rest : list (Q * Z)) (w : World) :
  redis_client (limiter w) = None ->
  local_buckets (limiter w) !! key = None ->
  fst (checks settings key ((t, n) :: rest) w)
  = map Return (bucket_answers (full_bucket settings t) ((t, n) :: rest)).
Proof.
  intros Hc Hb. cbn [checks bucket_answers map].
  assert (Hup : backend_up (set_clock t w))
    by (intros r Hr; cbn in Hr; congruence).
  rewrite is_allowed_eq by (try lia; exact Hup).
  assert (Hp : prior_bucket settings (set_clock t w) key = full_bucket settings t).
  { unfold prior_bucket, set_clock. cbn [limiter clock]. rewrite Hb. reflexivity. }
  unfold refreshed_tokens, after_check. cbn [set_clock limiter clock].
  rewrite Hc.
  change (prior_bucket settings {| clock := t; limiter := limiter w |} key)
    with (prior_bucket settings (set_clock t w) key).
  rewrite Hp.
  pose proof (checks_seen rest
                (with_buckets {| clock := t; limiter := limiter w |}
                   (<[key := charged (full_bucket settings t) t n]>
                      (local_buckets (limiter w))))
                (charged (full_bucket settings t) t n)) as IH.
  destruct (checks settings key rest _) as [os w2].
  cbn [fst] in *. rewrite IH; [reflexivity | exact Hc |].
  cbn [with_buckets limiter local_buckets]. apply lookup_insert_eq.
Qed.

Lemma rate_times_window : rate * inject_Z WINDOW == inject_Z REQ.
Proof.
  assert (0 < inject_Z WINDOW) by (apply inject_Z_pos; exact window_pos).
  field. lra.
Qed.

Lemma rate_pos : 0 <= rate.
Proof. apply rate_nonneg; [exact window_pos | lia]. Qed.

Lemma inject_Z_S (j : nat) :
  inject_Z (Z.of_nat (S j)) == inject_Z (Z.of_nat j) + 1.
Proof. rewrite Nat2Z.inj_succ. unfold Z.succ. rewrite inject_Z_plus. reflexivity. Qed.

Lemma refilled_tokens (b : TokenBucket) (t : Q) :
  tokens (refilled b t)
  = py_min (inject_Z (capacity b))
           (tokens b + (t - last_refill b) * refill_rate b).
Proof. reflexivity. Qed.

Lemma pays_refilled (t1 : Q) (j : nat) (b : TokenBucket) (t : Q) :
  pays settings t1 j b ->
  last_refill b <= t ->
  inject_Z (Z.of_nat j) <= tokens (refilled b t)
  /\ tokens (refilled b t) <= inject_Z (Z.of_nat j) + (t - t1) * rate
  /\ tokens (refilled b t) <= inject_Z REQ
  /\ 0 <= tokens (refilled b t).
Proof.
  intros (Hc & Hr & Hlo & Hhi & Hcap & Ht1) Ht.
  rewrite refilled_tokens, Hc, Hr.
  assert (Hj : 0 <= inject_Z (Z.of_nat j)) by (apply inject_Z_nonneg; lia).
  assert (Hgain : 0 <= (t - last_refill b) * rate)
    by (apply Qmult_le_0_compat; [lra | apply rate_pos]).
  assert (Hlow : inject_Z (Z.of_nat j)
                 <= py_min (inject_Z REQ) (tokens b + (t - last_refill b) * rate))
    by (apply py_min_glb; lra).
  pose proof (py_min_le_l (inject_Z REQ) (tokens b + (t - last_refill b) * rate)).
  pose proof (py_min_le_r (inject_Z REQ) (tokens b + (t - last_refill b) * rate)).
  repeat split; lra.
Qed.

Lemma pays_charged (t1 : Q) (j : nat) (b : TokenBucket) (t : Q) :
  pays settings t1 (S j) b ->
  last_refill b <= t ->
  ge_int (tokens (refilled b t)) 1 = true
  /\ pays settings t1 j (charged b t 1)
  /\ last_refill (charged b t 1) = t.
Proof.
  intros Hp Ht.
  destruct (pays_refilled t1 (S j) b t Hp Ht) as (Hlo & Hhi & Hcap & _).
  destruct Hp as (Hc & Hr & _ & _ & _ & Ht1).
  rewrite inject_Z_S in Hlo, Hhi.
  assert (Hj : 0 <= inject_Z (Z.of_nat j)) by (apply inject_Z_nonneg; lia).
  assert (Hd : ge_int (tokens (refilled b t)) 1 = true).
  { apply ge_int_true. change (inject_Z 1) with 1. lra. }
  split; [exact Hd|]. split; [|apply charged_last_refill].
  unfold pays.
  rewrite charged_capacity, charged_refill_rate, charged_tokens,
    charged_last_refill, Hd.
  change (inject_Z 1) with 1.
  repeat split; try assumption; lra.
Qed.

(** As many checks pass as the bucket can pay for, whatever their spacing. *)
Lemma burst_passes (t1 : Q) (ts rest : list Q) (b : TokenBucket) :
  pays settings t1 (length ts) b ->
  orderly (last_refill b) (burst_calls (ts ++ rest)) ->
  exists b' : TokenBucket,
    bucket_answers b (burst_calls (ts ++ rest))
    = repeat true (length ts) ++ bucket_answers b' (burst_calls rest)
    /\ pays settings t1 0 b'
    /\ orderly (last_refill b') (burst_calls rest).
Proof.
  revert b. induction ts as [|t ts IH]; intros b Hp Hord.
  - exists b. split; [reflexivity | split; assumption].
  - cbn [app burst_calls map orderly length] in Hord, Hp.
    destruct Hord as (Ht & _ & Hrest).
    destruct (pays_charged t1 (length ts) b t Hp Ht) as (Hd & Hp' & Hl).
    destruct (IH (charged b t 1) Hp') as (b' & E & Hp0 & Hord').
    { rewrite Hl. exact Hrest. }
    exists b'. split; [|split; assumption].
    cbn [app burst_calls map bucket_answers length repeat].
    rewrite Hd. f_equal. exact E.
Qed.

(** A bucket that cannot pay any more: the next check, made before half a
    token has been refilled since [t1], is turned down. *)
Lemma burst_refused (t1 t_rej : Q) (more : list Q) (b : TokenBucket) :
  pays settings t1 0 b ->
  last_refill b <= t_rej ->
  (t_rej - t1) * inject_Z REQ * 2 <= inject_Z WINDOW ->
  bucket_answers b (burst_calls (t_rej :: more))
  = false :: bucket_answers (refilled b t_rej) (burst_calls more)
  /\ 0 <= tokens (refilled b t_rej).
Proof.
  intros Hp Ht Hrapid.
  assert (HWq : 0 < inject_Z WINDOW) by (apply inject_Z_pos; exact window_pos).
  destruct (pays_refilled t1 0 b t_rej Hp Ht) as (_ & Hhi & _ & H0).
  change (inject_Z (Z.of_nat 0)) with 0 in Hhi.
  assert (Hlt : (t_rej - t1) * rate < 1).
  { assert (E : (t_rej - t1) * rate
                == ((t_rej - t1) * inject_Z REQ) / inject_Z WINDOW)
      by (field; lra).
    rewrite E. apply Qlt_shift_div_r; [exact HWq | lra]. }
  assert (Hd : ge_int (tokens (refilled b t_rej)) 1 = false).
  { apply ge_int_false. change (inject_Z 1) with 1. lra. }
  split; [|exact H0].
  cbn [burst_calls map bucket_answers].
  rewrite Hd. f_equal.
  assert (Hch : charged b t_rej 1 = refilled b t_rej)
    by (unfold charged; rewrite Hd; reflexivity).
  rewrite Hch. reflexivity.
Qed.

(** A check made after two tokens have been refilled passes. *)
Lemma burst_readmitted (t_late : Q) (more : list Q) (b : TokenBucket) :
  capacity b = REQ ->
  refill_rate b = rate ->
  0 <= tokens b ->
  2 * inject_Z WINDOW <= (t_late - last_refill b) * inject_Z REQ ->
  bucket_answers b (burst_calls (t_late :: more))
  = true :: bucket_answers (charged b t_late 1) (burst_calls more).
Proof.
  intros Hc Hr H0 Hlate.
  assert (HWq : 0 < inject_Z WINDOW) by (apply inject_Z_pos; exact window_pos).
  assert (HRq : 1 <= inject_Z REQ).
  { change 1 with (inject_Z 1). rewrite <- Zle_Qle. exact requests_pos. }
  cbn [burst_calls map bucket_answers]. f_equal.
  apply ge_int_true. change (inject_Z 1) with 1.
  rewrite refilled_tokens, Hc, Hr.
  apply py_min_glb; [exact HRq|].
  assert (Hge : 2 <= (t_late - last_refill b) * rate).
  { assert (E : (t_late - last_refill b) * rate
                == ((t_late - last_refill b) * inject_Z REQ) / inject_Z WINDOW)
      by (field; lra).
    rewrite E. apply Qle_shift_div_l; [exact HWq | exact Hlate]. }
  lra.
Qed.

End Burst.

(** C9, as the design document states it, fails: with quota 3 and a window of
    60 seconds, three checks at time 1000 and a fourth at 1020 all lie in one
    window, and the fourth passes, since one token has been refilled. *)
Lemma window_quota_counterexample :
  ~ window_quota demo_settings "user:42" (fresh_world 1000)
      [1000; 1000; 1000; 1020].
Proof.
  intros H.
  assert (E : fst (checks demo_settings "user:42"
                     (burst_calls [1000; 1000; 1000; 1020]) (fresh_world 1000))
              = [Return true; Return true; Return true; Return false]).
  { apply H.
    - reflexivity.
    - cbn [burst_calls map orderly fresh_world clock].
      repeat split; try (unfold Qle; simpl; lia); lia.
    - intros t t' Ht Ht'. cbn [In] in Ht, Ht'.
      repeat (destruct Ht as [<-|Ht]; [|]); try contradiction;
        repeat (destruct Ht' as [<-|Ht']; [|]); try contradiction;
        reflexivity. }
  vm_compute in E. discriminate E.
Qed.

(** The scenario of the design document in the arithmetic of the code: with
    quota 3 and a window of 60 seconds, four calls at once and a fifth 60
    seconds later. *)
Example binary64_burst_scenario :
  fst (Binary64.checks demo_settings "user:42"
         (map (fun t => (Binary64.of_int t, 1%Z)) [1000; 1000; 1000; 1000; 1060]%Z)
         ∅)
  = [Return true; Return true; Return true; Return false; Return true].
Proof. vm_compute. reflexivity. Qed.

(** A margin is needed for the check after the refused one: with quota 1 and
    a window of 49 seconds the code turns down a check made a whole window
    after the refused one, and lets one made two windows after it pass. *)
Example binary64_late_check :
  fst (Binary64.checks slow_settings "user:42"
         (map (fun t => (Binary64.of_int t, 1%Z)) [1000; 1000; 1049]%Z) ∅)
  = [Return true; Return false; Return false]
  /\ fst (Binary64.checks slow_settings "user:42"
            (map (fun t => (Binary64.of_int t, 1%Z)) [1000; 1000; 1098]%Z) ∅)
     = [Return true; Return false; Return true].
Proof. split; vm_compute; reflexivity. Qed.

(** C9 (amended): on the in-process path, for a positive window and a quota
    of at least 1, starting from an unseen key (its bucket is created full),
    of checks of cost 1 made at clock readings that never go back: the first
    [capacity] pass, whatever their spacing and whatever follows them; the
    next one is turned down if it comes no later than half of
    [windowSeconds/capacity] seconds after the first check, that is, before
    half a token has been refilled; and the one after that passes if it
    comes at least twice [windowSeconds/capacity] seconds after the refused
    one, when two tokens have been refilled.  With quota 3 and a window of 60
    seconds: four calls at once give pass, pass, pass, refuse, and a fifth 60
    seconds later passes. *)
Theorem burst_quota
    (settings : Settings) (key : string) (w : World) (ts rest : list Q) :
  (0 < RATE_LIMIT_WINDOW settings)%Z ->
  (1 <= RATE_LIMIT_REQUESTS settings)%Z ->
  redis_client (limiter w) = None ->
  local_buckets (limiter w) !! key = None ->
  length ts = Z.to_nat (RATE_LIMIT_REQUESTS settings) ->
  orderly (clock w) (burst_calls (ts ++ rest)) ->
  firstn (Z.to_nat (RATE_LIMIT_REQUESTS settings))
    (fst (checks settings key (burst_calls (ts ++ rest)) w))
  = repeat (Return true) (Z.to_nat (RATE_LIMIT_REQUESTS settings))
  /\ (forall (t_rej : Q) (more : list Q),
        rest = t_rej :: more ->
        (t_rej - hd t_rej ts) * inject_Z (RATE_LIMIT_REQUESTS settings) * 2
        <= inject_Z (RATE_LIMIT_WINDOW settings) ->
        firstn (S (Z.to_nat (RATE_LIMIT_REQUESTS settings)))
          (fst (checks settings key (burst_calls (ts ++ rest)) w))
        = repeat (Return true) (Z.to_nat (RATE_LIMIT_REQUESTS settings))
          ++ [Return false])
  /\ (forall (t_rej t_late : Q) (more : list Q),
        rest = t_rej :: t_late :: more ->
        (t_rej - hd t_rej ts) * inject_Z (RATE_LIMIT_REQUESTS settings) * 2
        <= inject_Z (RATE_LIMIT_WINDOW settings) ->
        2 * inject_Z (RATE_LIMIT_WINDOW settings)
        <= (t_late - t_rej) * inject_Z (RATE_LIMIT_REQUESTS settings) ->
        firstn (S (S (Z.to_nat (RATE_LIMIT_REQUESTS settings))))
          (fst (checks settings key (burst_calls (ts ++ rest)) w))
        = repeat (Return true) (Z.to_nat (RATE_LIMIT_REQUESTS settings))
          ++ [Return false; Return true]).
Proof.
  intros HW HR Hc Hb Hlen Hord.
  destruct ts as [|t1 ts].
  { cbn [length] in Hlen. lia. }
  change (burst_calls ((t1 :: ts) ++ rest))
    with ((t1, 1%Z) :: burst_calls (ts ++ rest)) in *.
  rewrite (checks_unseen settings key HW) by assumption.
  change ((t1, 1%Z) :: burst_calls (ts ++ rest))
    with (burst_calls ((t1 :: ts) ++ rest)) in *.
  destruct (burst_passes settings HW HR t1 (t1 :: ts) rest (full_bucket settings t1))
    as (b' & E & Hp & Hord').
  { assert (Hq : inject_Z (Z.of_nat (length (t1 :: ts)))
                 == inject_Z (RATE_LIMIT_REQUESTS settings)).
    { rewrite Hlen, Z2Nat.id by lia. reflexivity. }
    unfold pays, full_bucket. cbn [capacity refill_rate tokens last_refill].
    repeat split; try reflexivity; lra. }
  { cbn [full_bucket last_refill].
    cbn [app burst_calls map orderly] in Hord |- *.
    destruct Hord as (_ & Hn & Hrest). repeat split; try assumption. lra. }
  rewrite E, map_app, map_repeat, Hlen.
  set (n := Z.to_nat (RATE_LIMIT_REQUESTS settings)).
  assert (Hrefused : forall (t_rej : Q) (more : list Q),
    rest = t_rej :: more ->
    (t_rej - t1) * inject_Z (RATE_LIMIT_REQUESTS settings) * 2
    <= inject_Z (RATE_LIMIT_WINDOW settings) ->
    bucket_answers b' (burst_calls rest)
    = false :: bucket_answers (refilled b' t_rej) (burst_calls more)
    /\ 0 <= tokens (refilled b' t_rej)).
  { intros t_rej more -> Hrapid.
    cbn [burst_calls map orderly] in Hord'. destruct Hord' as (Ht & _).
    apply (burst_refused settings HW HR t1); assumption. }
  split; [|split].
  - replace n with (length (repeat (Return true : outcome bool) n)) at 1
      by apply repeat_length.
    apply take_app_length.
  - intros t_rej more Hrest Hrapid. cbn [hd] in Hrapid.
    destruct (Hrefused t_rej more Hrest Hrapid) as (-> & _).
    cbn [map].
    change (repeat (Return true) n
            ++ Return false :: map Return (bucket_answers (refilled b' t_rej)
                                             (burst_calls more)))
      with (repeat (Return true) n
            ++ [Return false]
            ++ map Return (bucket_answers (refilled b' t_rej) (burst_calls more))).
    rewrite app_assoc.
    replace (S n) with (length (repeat (Return true : outcome bool) n
                                ++ [Return false]))
      by (rewrite length_app, repeat_length; cbn [length]; lia).
    apply take_app_length.
  - intros t_rej t_late more Hrest Hrapid Hlate. cbn [hd] in Hrapid.
    destruct (Hrefused t_rej (t_late :: more) Hrest Hrapid) as (-> & H0).
    destruct Hp as (Hcap & Hrate & _).
    rewrite (burst_readmitted settings HW HR t_late more (refilled b' t_rej))
      by (try exact Hcap; try exact Hrate; try exact H0; exact Hlate).
    cbn [map].
    change (repeat (Return true) n
            ++ Return false :: Return true
               :: map Return (bucket_answers (charged (refilled b' t_rej) t_late 1)
                                (burst_calls more)))
      with (repeat (Return true) n
            ++ [Return false; Return true]
            ++ map Return (bucket_answers (charged (refilled b' t_rej) t_late 1)
                             (burst_calls more))).
    rewrite app_assoc.
    replace (S (S n)) with (length (repeat (Return true : outcome bool) n
                                    ++ [Return false; Return true]))
      by (rewrite length_app, repeat_length; cbn [length]; lia).
    apply take_app_length.
Qed.

Lemma burst_quota_witness :
  firstn (S (S (Z.to_nat (RATE_LIMIT_REQUESTS demo_settings))))
    (fst (checks demo_settings "user:42"
            (burst_calls ([1000; 1000; 1000] ++ [1000; 1060])) (fresh_world 1000)))
  = repeat (Return true) (Z.to_nat (RATE_LIMIT_REQUESTS demo_settings))
    ++ [Return false; Return true].
Proof.
  assert (HW : (0 < RATE_LIMIT_WINDOW demo_settings)%Z) by reflexivity.
  assert (HR : (1 <= RATE_LIMIT_REQUESTS demo_settings)%Z) by discriminate.
  assert (Hc : redis_client (limiter (fresh_world 1000)) = None) by reflexivity.
  assert (Hb : local_buckets (limiter (fresh_world 1000)) !! "user:42"%string = None)
    by apply lookup_empty.
  assert (Hlen : length [1000; 1000; 1000]
                 = Z.to_nat (RATE_LIMIT_REQUESTS demo_settings)) by reflexivity.
  assert (Hord : orderly (clock (fresh_world 1000))
                   (burst_calls ([1000; 1000; 1000] ++ [1000; 1060]))).
  { cbn [app burst_calls map orderly fresh_world clock].
    repeat split; try (unfold Qle; simpl; lia); lia. }
  destruct (burst_quota demo_settings "user:42" (fresh_world 1000)
              [1000; 1000; 1000] [1000; 1060] HW HR Hc Hb Hlen Hord)
    as (_ & _ & Hall).
  apply (Hall 1000 1060 []).
  - reflexivity.
  - unfold Qle. simpl. lia.
  - unfold Qle. simpl. lia.
Defined.

(** ** The middleware *)

Lemma exempt_path_in (p : string) :
  p = "/api/v1/health"%string \/ p = "/api/v1/auth/login"%string
  \/ p = "/api/v1/auth/register"%string ->
  path_in p exempt_paths = true.
Proof. intros [ -> | [ -> | -> ] ]; reflexivity. Qed.

Lemma call_app_not_json {R : Type} (app : Scope -> M R) (scope : Scope)
      (w w' : World) (code retry : Z) :
  call_app app scope w <> (Return (JSONResponse code retry), w').
Proof.
  unfold call_app, bind, ret. destruct (app scope w) as [[r|e] w1]; congruence.
Qed.

(** C10: for a request whose path is exactly [/api/v1/health],
    [/api/v1/auth/login] or [/api/v1/auth/register] the middleware hands the
    request to the wrapped application and does nothing else: whatever the
    limiter is, it is not consulted, so the middleware never answers 429 and
    the state it leaves is the one the application leaves. *)
Theorem exempt_paths_bypass_limiter
    {R : Type} (app : Scope -> M R) (scope : Scope) (w : World) :
  path scope = "/api/v1/health"%string
  \/ path scope = "/api/v1/auth/login"%string
  \/ path scope = "/api/v1/auth/register"%string ->
  (forall check : string -> Z -> M bool,
      RateLimitMiddleware_call check app scope w = call_app app scope w)
  /\ (forall (check : string -> Z -> M bool) (code retry : Z) (w' : World),
         RateLimitMiddleware_call check app scope w
         <> (Return (JSONResponse code retry), w'))
  /\ (forall check : string -> Z -> M bool,
         snd (RateLimitMiddleware_call check app scope w) = snd (app scope w)).
Proof.
  intros Hp.
  assert (E : forall check : string -> Z -> M bool,
             RateLimitMiddleware_call check app scope w = call_app app scope w).
  { intros check. unfold RateLimitMiddleware_call.
    rewrite (exempt_path_in (path scope) Hp).
    destruct (negb _); reflexivity. }
  split; [exact E|]. split.
  - intros check code retry w'. rewrite E. apply call_app_not_json.
  - intros check. rewrite E. unfold call_app, bind, ret.
    destruct (app scope w) as [[r|e] w1]; reflexivity.
Qed.

Lemma exempt_paths_bypass_limiter_witness :
  RateLimitMiddleware_call (is_allowed demo_settings) idle_app health_scope
    (fresh_world 1000)
  = (Return (Downstream tt), fresh_world 1000).
Proof.
  destruct (exempt_paths_bypass_limiter idle_app health_scope (fresh_world 1000))
    as (E & _ & _).
  - left. reflexivity.
  - rewrite E. reflexivity.
Defined.

(** A path that only resembles an exempt one goes through the limiter. *)
Example near_exempt_path_is_limited :
  snd (RateLimitMiddleware_call (is_allowed demo_settings) idle_app
         {| scope_type := "http"; path := "/api/v1/health/";
            client_host := Some "10.0.0.7"%string |}
         (fresh_world 1000))
  <> fresh_world 1000.
Proof. vm_compute. discriminate. Qed.

(** ** The encoder on small values *)

Example json_dumps_format :
  json_dumps (JDict [("n"%string, JInt 1);
                     ("l"%string, JList [JNull; JInt (-2)])])
  = String "{" (String dquote ("n" ++ String dquote (": 1, "
      ++ String dquote ("l" ++ String dquote ": [null, -2]}"))))%string.
Proof. reflexivity. Qed.

Example escape_controls :
  escape (String newline (String dquote (String "127"%char "a")))
  = String backslash ("n" ++ String backslash (String dquote
      (String backslash "u007fa")))%string.
Proof. reflexivity. Qed.

(** ** Defaults substitution *)

Lemma or_float_unset (d : Q) : or_float None d = d.
Proof. reflexivity. Qed.

Lemma or_float_nonzero (q d : Q) : ~ q == 0 -> or_float (Some q) d = q.
Proof.
  intros H. unfold or_float. destruct (Qeq_bool q 0) eqn:E; [|reflexivity].
  apply Qeq_bool_iff in E. contradiction.
Qed.

Lemma or_float_zero (q d : Q) : q == 0 -> or_float (Some q) d = d.
Proof.
  intros H. unfold or_float. apply Qeq_bool_iff in H. rewrite H. reflexivity.
Qed.

(** What the substitution does get right: a parameter that is unset is
    replaced by its default, and one set to a non-zero number or a non-empty
    model name goes upstream as it is. *)
Lemma create_args_passthrough (self : LLMService) (request : ChatRequest)
      (streaming : bool) (t : Q) (m : string) (k : Z) :
  (temperature request = Some t -> ~ t == 0 ->
   arg_temperature (create_args self request streaming) = t)
  /\ (temperature request = None ->
      arg_temperature (create_args self request streaming) = 0.7)
  /\ (model request = Some m -> m <> ""%string ->
      arg_model (create_args self request streaming) = m)
  /\ (model request = None ->
      arg_model (create_args self request streaming) = default_model self)
  /\ (max_tokens request = Some k -> k <> 0%Z ->
      arg_max_tokens (create_args self request streaming) = k)
  /\ (max_tokens request = None ->
      arg_max_tokens (create_args self request streaming)
      = service_max_tokens self).
Proof.
  unfold create_args. cbn [arg_temperature arg_model arg_max_tokens].
  repeat split.
  - intros -> H. apply or_float_nonzero. exact H.
  - intros ->. reflexivity.
  - intros -> H. unfold or_str. destruct (String.eqb m "") eqn:E; [|reflexivity].
    apply String.eqb_eq in E. contradiction.
  - intros ->. reflexivity.
  - intros -> H. unfold or_int. destruct (k =? 0)%Z eqn:E; [|reflexivity].
    apply Z.eqb_eq in E. contradiction.
  - intros ->. reflexivity.
Qed.

(** C6 does not hold of the code: a request that sets [temperature] (or
    [top_p]) to 0.0 has the value replaced by the default 0.7 (or 1.0) on its
    way upstream, in the streaming and in the plain call alike, because
    [x or default] treats a zero like an unset parameter. *)
Theorem zero_temperature_replaced_by_default :
  temperature zero_temperature_request = Some 0.0
  /\ arg_temperature (create_args demo_service zero_temperature_request true) = 0.7
  /\ arg_temperature (create_args demo_service zero_temperature_request false) = 0.7
  /\ ~ arg_temperature (create_args demo_service zero_temperature_request true) == 0.0
  /\ (forall (self : LLMService) (request : ChatRequest) (streaming : bool) (q : Q),
         top_p request = Some q -> q == 0 ->
         arg_top_p (create_args self request streaming) = 1.0).
Proof.
  split; [reflexivity|]. split; [reflexivity|]. split; [reflexivity|]. split.
  - vm_compute. discriminate.
  - intros self request streaming q Hq H0. unfold create_args.
    cbn [arg_top_p]. rewrite Hq. apply or_float_zero. exact H0.
Qed.

(** ** The streaming relay *)

Lemma envelope_dumps_prefix (chunk : Chunk.t) (choice : Chunk.Choice) (delta : json) :
  exists tail : string,
    json_dumps (chunk_envelope chunk choice delta)
    = String "{" (String dquote (String "i" tail)).
Proof. eexists. unfold chunk_envelope. reflexivity. Qed.

Lemma sse_envelope_not_terminal (chunk : Chunk.t) (choice : Chunk.Choice)
      (delta : json) :
  is_terminal (sse (json_dumps (chunk_envelope chunk choice delta))) = false.
Proof.
  destruct (envelope_dumps_prefix chunk choice delta) as [tail E].
  rewrite E. reflexivity.
Qed.

Lemma chunk_events_envelopes (chunk : Chunk.t) :
  Forall is_envelope (yielded (chunk_events chunk)).
Proof.
  unfold chunk_events.
  destruct (Chunk.choices chunk) as [|choice rest]; [constructor|].
  destruct (Chunk.delta choice) as [d|]; [|constructor].
  cbn [yielded]. apply Forall_app. split.
  - destruct (Chunk.content d) as [text|]; [|constructor].
    constructor; [|constructor]. eexists _, _, _. reflexivity.
  - destruct (truthy (Chunk.finish_reason choice)); [|constructor].
    constructor; [|constructor]. eexists _, _, _. reflexivity.
Qed.

Lemma relay_chunks_envelopes (chunks : list Chunk.t) (ending : StreamEnd) :
  Forall is_envelope (yielded (relay_chunks chunks ending)).
Proof.
  induction chunks as [|chunk rest IH]; cbn [relay_chunks].
  - destruct ending; constructor.
  - pose proof (chunk_events_envelopes chunk) as H.
    destruct (raised (chunk_events chunk)); [exact H|].
    cbn [yielded]. apply Forall_app. split; assumption.
Qed.

Lemma stream_envelopes (self : LLMService) (upstream : CreateArgs -> Upstream)
      (request : ChatRequest) :
  Forall is_envelope
    (yielded (create_chat_completion_stream self upstream request)).
Proof.
  unfold create_chat_completion_stream.
  destruct (upstream _) as [e|chunks ending]; [constructor|].
  cbn [yielded]. apply relay_chunks_envelopes.
Qed.

Lemma frames_not_terminal (events : list json) :
  Forall is_envelope events ->
  List.filter is_terminal (map (fun chunk => sse (json_dumps chunk)) events) = [].
Proof.
  induction 1 as [|event rest (chunk & choice & delta & ->) _ IH]; [reflexivity|].
  cbn [map List.filter]. rewrite sse_envelope_not_terminal. exact IH.
Qed.

Lemma done_frame_text : done_frame = sentinel_text.
Proof. reflexivity. Qed.

Lemma error_frame_text : error_frame = error_event_text.
Proof. vm_compute. reflexivity. Qed.

Lemma relay_chunks_fails (chunks : list Chunk.t) (e : exn) :
  exists e' : exn, raised (relay_chunks chunks (Fails e)) = Some e'.
Proof.
  induction chunks as [|chunk rest IH]; cbn [relay_chunks].
  - eexists. reflexivity.
  - destruct (raised (chunk_events chunk)) as [e'|] eqn:E.
    + exists e'. exact E.
    + exact IH.
Qed.

(** C3: the event generator of the streaming endpoint, run on any upstream
    behaviour that comes to an end, ends without an exception.  Its frames
    are one frame [data: <json>] and a blank line for each event of the
    service generator, followed by exactly one terminal frame: the text
    [data: [DONE]] and a blank line when the service generator was
    exhausted, the text
    [data: {"error": {"message": "Stream error occurred", "type": "server_error"}}]
    and a blank line when it raised.  The two texts differ, exactly one
    frame of a session is one of them, and it is the last one: the sentinel
    when the upstream call opened, every chunk was translated and the
    stream was exhausted, the error event in every other case. *)
Theorem one_terminal_frame
    (self : LLMService) (upstream : CreateArgs -> Upstream) (request : ChatRequest) :
  raised (generate_stream self upstream request) = None
  /\ yielded (generate_stream self upstream request)
     = map (fun event =>
              ("data: " ++ json_dumps event
               ++ String "010" (String "010" ""))%string)
         (yielded (create_chat_completion_stream self upstream request))
       ++ [match raised (create_chat_completion_stream self upstream request) with
           | None => sentinel_text
           | Some _ => error_event_text
           end]
  /\ length (List.filter
               (fun frame =>
                  String.eqb frame sentinel_text
                  || String.eqb frame error_event_text)
               (yielded (generate_stream self upstream request))) = 1%nat
  /\ sentinel_text <> error_event_text
  /\ List.last (yielded (generate_stream self upstream request)) EmptyString
     = match upstream (create_args self request true) with
       | Opened chunks Exhausted =>
           match raised (relay_chunks chunks Exhausted) with
           | None => sentinel_text
           | Some _ => error_event_text
           end
       | _ => error_event_text
       end
  /\ match json_get "error" error_data with
     | Some e =>
         json_get "type" e = Some (JStr "server_error")
         /\ json_get "message" e = Some (JStr "Stream error occurred")
     | None => False
     end.
Proof.
  pose proof (frames_not_terminal _ (stream_envelopes self upstream request)) as Hf.
  assert (Hshape :
    yielded (generate_stream self upstream request)
    = map (fun chunk => sse (json_dumps chunk))
        (yielded (create_chat_completion_stream self upstream request))
      ++ [match raised (create_chat_completion_stream self upstream request) with
          | None => done_frame
          | Some _ => error_frame
          end]).
  { unfold generate_stream.
    destruct (raised (create_chat_completion_stream self upstream request));
      reflexivity. }
  rewrite <- done_frame_text, <- error_frame_text.
  change (fun frame : string =>
            String.eqb frame done_frame || String.eqb frame error_frame)
    with is_terminal.
  change (fun event : json =>
            ("data: " ++ json_dumps event ++ String "010" (String "010" ""))%string)
    with (fun chunk : json => sse (json_dumps chunk)).
  split.
  { unfold generate_stream.
    destruct (raised (create_chat_completion_stream self upstream request));
      reflexivity. }
  split; [exact Hshape|].
  split.
  { rewrite Hshape, List.filter_app, Hf.
    destruct (raised (create_chat_completion_stream self upstream request));
      reflexivity. }
  split.
  { intros E. vm_compute in E. discriminate E. }
  split.
  { rewrite Hshape, last_last. unfold create_chat_completion_stream.
    destruct (upstream (create_args self request true)) as [e|chunks ending].
    - reflexivity.
    - cbn [raised]. destruct ending as [|e].
      + destruct (raised (relay_chunks chunks Exhausted)); reflexivity.
      + destruct (relay_chunks_fails chunks e) as [e' ->]. reflexivity. }
  split; reflexivity.
Qed.

(** ** Translation of chunks into events *)

Lemma content_event_is_content (chunk : Chunk.t) (choice : Chunk.Choice)
      (text : string) :
  is_content_event (content_event chunk choice text) = true
  /\ is_finish_event (content_event chunk choice text) = false.
Proof. split; reflexivity. Qed.

Lemma finish_event_is_finish (chunk : Chunk.t) (choice : Chunk.Choice) :
  is_content_event (finish_event chunk choice) = false
  /\ is_finish_event (finish_event chunk choice) = true.
Proof. split; reflexivity. Qed.

(** C5, as the design document states it, fails: the chunk that opens a
    stream carries the empty string as content, which is not [None], and is
    translated into a content event all the same. *)
Lemma content_iff_nonempty_counterexample :
  ~ content_iff_nonempty empty_content_chunk.
Proof.
  intros [H _].
  assert (E : carries_nonempty_content empty_content_chunk = true)
    by (apply H; reflexivity).
  vm_compute in E. discriminate E.
Qed.

(** C5 (amended): a chunk is translated into one content event exactly when
    its first choice has a delta whose content is not [None], the empty
    string included, and into no content event otherwise; it additionally
    gives one finish event, after the content event, exactly when that
    choice has a delta and a finish reason that is neither [None] nor empty.
    Every event of a chunk carries the id, object, created and model of
    that chunk and exactly one choice, with the index and the finish reason
    of the chunk's first choice; the delta of the content event holds the
    content of the chunk, unchanged, and the delta of the finish event is
    empty.  A chunk whose first choice has no delta gives no event and makes
    the generator fail.  For the upstream chunks "Hel", "lo" and then the
    finish reason "stop" the endpoint emits two content events, one finish
    event and the sentinel: four frames, spelled out below. *)
Theorem chunk_translation (chunk : Chunk.t)
    (self : LLMService) (request : ChatRequest) :
  length (List.filter is_content_event (yielded (chunk_events chunk)))
  = (if carries_content chunk then 1 else 0)%nat
  /\ length (List.filter is_finish_event (yielded (chunk_events chunk)))
     = (if carries_finish chunk then 1 else 0)%nat
  /\ length (yielded (chunk_events chunk))
     = ((if carries_content chunk then 1 else 0)
        + (if carries_finish chunk then 1 else 0))%nat
  /\ List.filter is_finish_event
       (firstn (if carries_content chunk then 1 else 0)
          (yielded (chunk_events chunk))) = []
  /\ Forall (fun event =>
               json_get "id" event = Some (JStr (Chunk.id chunk))
               /\ json_get "object" event = Some (JStr (Chunk.object chunk))
               /\ json_get "created" event = Some (JInt (Chunk.created chunk))
               /\ json_get "model" event = Some (JStr (Chunk.model chunk))
               /\ (exists c : json, json_get "choices" event = Some (JList [c]))
               /\ event_field "index" event
                  = (fun choice => JInt (Chunk.index choice))
                    <$> first_choice chunk
               /\ event_field "finish_reason" event
                  = (fun choice => json_opt_str (Chunk.finish_reason choice))
                    <$> first_choice chunk)
       (yielded (chunk_events chunk))
  /\ map event_delta (List.filter is_content_event (yielded (chunk_events chunk)))
     = (if carries_content chunk
        then [Some (JDict [("content"%string, JStr (chunk_text chunk))])]
        else [])
  /\ map event_delta (List.filter is_finish_event (yielded (chunk_events chunk)))
     = (if carries_finish chunk then [Some (JDict [])] else [])
  /\ raised (chunk_events chunk)
     = (if well_formed chunk then None else Some AttributeError)
  /\ yielded (generate_stream self hello_upstream request)
     = [demo_frame_text
          ("{" ++ quoted "content" ++ ": " ++ quoted "Hel" ++ "}") "null";
        demo_frame_text
          ("{" ++ quoted "content" ++ ": " ++ quoted "lo" ++ "}") "null";
        demo_frame_text "{}" (quoted "stop");
        sentinel_text].
Proof.
  assert (Hcounts :
    length (List.filter is_content_event (yielded (chunk_events chunk)))
    = (if carries_content chunk then 1 else 0)%nat
    /\ length (List.filter is_finish_event (yielded (chunk_events chunk)))
       = (if carries_finish chunk then 1 else 0)%nat
    /\ length (yielded (chunk_events chunk))
       = ((if carries_content chunk then 1 else 0)
          + (if carries_finish chunk then 1 else 0))%nat
    /\ List.filter is_finish_event
         (firstn (if carries_content chunk then 1 else 0)
            (yielded (chunk_events chunk))) = []).
  { unfold chunk_events, carries_content, carries_finish.
    destruct (Chunk.choices chunk) as [|c rest]; [repeat split|].
    destruct (Chunk.delta c) as [d|]; [|repeat split].
    destruct (Chunk.content d) as [s|];
      destruct (truthy (Chunk.finish_reason c)); repeat split. }
  destruct Hcounts as (H1 & H2 & H3 & H4).
  split; [exact H1|]. split; [exact H2|]. split; [exact H3|]. split; [exact H4|].
  split.
  { unfold chunk_events, first_choice.
    destruct (Chunk.choices chunk) as [|c rest]; [constructor|].
    destruct (Chunk.delta c) as [d|]; [|constructor].
    cbn [yielded]. apply Forall_app. split.
    - destruct (Chunk.content d) as [text|]; [|constructor].
      constructor; [|constructor].
      repeat (split; [reflexivity|]). split; [eexists; reflexivity|].
      split; reflexivity.
    - destruct (truthy (Chunk.finish_reason c)); [|constructor].
      constructor; [|constructor].
      repeat (split; [reflexivity|]). split; [eexists; reflexivity|].
      split; reflexivity. }
  split.
  { unfold chunk_events, carries_content, chunk_text.
    destruct (Chunk.choices chunk) as [|c rest]; [reflexivity|].
    destruct (Chunk.delta c) as [d|]; [|reflexivity].
    destruct (Chunk.content d) as [text|];
      destruct (truthy (Chunk.finish_reason c)); reflexivity. }
  split.
  { unfold chunk_events, carries_finish.
    destruct (Chunk.choices chunk) as [|c rest]; [reflexivity|].
    destruct (Chunk.delta c) as [d|]; [|reflexivity].
    destruct (Chunk.content d) as [text|];
      destruct (truthy (Chunk.finish_reason c)); reflexivity. }
  split.
  { unfold chunk_events, well_formed.
    destruct (Chunk.choices chunk) as [|c rest]; [reflexivity|].
    destruct (Chunk.delta c) as [d|]; reflexivity. }
  vm_compute. reflexivity.
Qed.

(** * Part III: further properties of the code *)

(** ** The limiter: every case of one check *)

Section EveryCase.

Variable settings : Settings.

Local Abbreviation REQ := (RATE_LIMIT_REQUESTS settings).
Local Abbreviation WINDOW := (RATE_LIMIT_WINDOW settings).

Lemma memory_rate_limit_seen (key : string) (n : Z) (w : World) (b : TokenBucket) :
  local_buckets (limiter w) !! key = Some b ->
  _memory_rate_limit settings key n w
  = (Return (ge_int (tokens (refilled b (clock w))) n),
     with_buckets w (<[key := charged b (clock w) n]> (local_buckets (limiter w)))).
Proof.
  intros Hb.
  unfold _memory_rate_limit, charged, with_buckets, get_buckets, put_bucket,
    get_limiter, put_limiter, time_time, bind, ret.
  rewrite Hb. simpl.
  destruct (ge_int _ n); simpl; rewrite ?insert_insert_eq; reflexivity.
Qed.

Lemma redis_rate_limit_zero_window (key : string) (n : Z) (w : World) (r : Redis) :
  WINDOW = 0%Z ->
  redis_client (limiter w) = Some r ->
  reachable r = true ->
  _redis_rate_limit settings key n w = (Raise ZeroDivisionError, w).
Proof.
  intros HW Hc Hr.
  unfold _redis_rate_limit, hgetall, get_client, truediv, get_limiter,
    time_time, bind, ret, raise.
  rewrite HW, Hc, Hr. simpl.
  destruct (is_empty_dict _); reflexivity.
Qed.

(** The world a check leaves, in every case: the one [after_check] names
    when a decision is returned, the one it started in when it raises. *)
Lemma is_allowed_cases (key : string) (n : Z) (w : World) :
  is_allowed settings key n w
  = (expected_answer settings w key n,
     match expected_answer settings w key n with
     | Return _ => after_check settings w key n
     | Raise _ => w
     end).
Proof.
  unfold expected_answer, after_check.
  destruct (redis_client (limiter w)) as [r|] eqn:Hc.
  - rewrite (is_allowed_redis settings key n w r Hc).
    destruct (reachable r) eqn:Hr.
    + destruct (WINDOW =? 0)%Z eqn:HW.
      * apply Z.eqb_eq in HW. apply redis_rate_limit_zero_window with (r := r); auto.
      * apply Z.eqb_neq in HW. apply redis_rate_limit_eq; auto.
    + apply redis_rate_limit_unreachable with (r := r); auto.
  - rewrite (is_allowed_memory settings key n w Hc).
    destruct (local_buckets (limiter w) !! key) as [b|] eqn:Hb.
    + rewrite (memory_rate_limit_seen key n w b Hb).
      unfold prior_bucket. rewrite Hb. reflexivity.
    + destruct (WINDOW =? 0)%Z eqn:HW.
      * apply Z.eqb_eq in HW. apply memory_rate_limit_zero_window; auto.
      * apply Z.eqb_neq in HW. rewrite memory_rate_limit_eq by exact HW.
        unfold prior_bucket. rewrite Hb. reflexivity.
Qed.

Lemma bucket_name_inj (k k' : string) : bucket_name k = bucket_name k' -> k = k'.
Proof. unfold bucket_name. intros H. lazy in H. congruence. Qed.

Lemma redis_saved_other (r : Redis) (now : Q) (key key' : string) (n : Z) :
  key <> key' ->
  hashes (redis_saved settings r now key n) !! bucket_name key'
  = hashes r !! bucket_name key'
  /\ deadlines (redis_saved settings r now key n) !! bucket_name key'
     = deadlines r !! bucket_name key'.
Proof.
  intros Hne.
  assert (Hn : bucket_name key <> bucket_name key')
    by (intros E; apply Hne, bucket_name_inj, E).
  unfold redis_saved, fold_left, apply_command.
  destruct (0 <? WINDOW * 2)%Z; cbn [hashes deadlines];
    destruct (expired r now (bucket_name key));
    rewrite ?lookup_insert_ne, ?lookup_delete_ne, ?lookup_insert_ne by exact Hn;
    split; reflexivity.
Qed.

Lemma after_check_held_for (key key' : string) (n : Z) (w : World) :
  key <> key' ->
  held_for (after_check settings w key n) key' = held_for w key'.
Proof.
  intros Hne. unfold after_check, held_for.
  destruct (redis_client (limiter w)) as [r|] eqn:Hc.
  - destruct (ge_int _ n).
    + unfold with_client. cbn [limiter redis_client local_buckets].
      destruct (redis_saved_other r (clock w) key key' n Hne) as [-> ->].
      reflexivity.
    + rewrite Hc. reflexivity.
  - unfold with_buckets. cbn [limiter redis_client local_buckets].
    rewrite Hc, lookup_insert_ne by exact Hne. reflexivity.
Qed.

Lemma after_check_backend_state (key : string) (n : Z) (w : World) :
  backend_state (after_check settings w key n) = backend_state w.
Proof.
  unfold after_check, backend_state.
  destruct (redis_client (limiter w)) as [r|] eqn:Hc.
  - destruct (ge_int _ n).
    + unfold with_client. cbn [limiter redis_client].
      unfold redis_saved, fold_left, apply_command.
      destruct (0 <? WINDOW * 2)%Z; reflexivity.
    + rewrite Hc. reflexivity.
  - unfold with_buckets. cbn [limiter redis_client]. rewrite Hc. reflexivity.
Qed.

(** The answer of a check is a function of the clock, of the state of the
    backend, and of what the limiter holds for that one key. *)
Lemma expected_answer_view (key : string) (n : Z) (w1 w2 : World) :
  clock w1 = clock w2 ->
  backend_state w1 = backend_state w2 ->
  held_for w1 key = held_for w2 key ->
  expected_answer settings w1 key n = expected_answer settings w2 key n.
Proof.
  unfold backend_state, held_for, expected_answer. intros Hclk Hb Hh.
  destruct (redis_client (limiter w1)) as [r1|],
           (redis_client (limiter w2)) as [r2|]; try discriminate Hb.
  - injection Hb as Hr. injection Hh as _ Hhash Hdead.
    rewrite Hr, Hclk.
    assert (E : redis_refreshed settings r1 (clock w2) key
                = redis_refreshed settings r2 (clock w2) key).
    { unfold redis_refreshed, redis_prior, live_hash, expired.
      rewrite Hhash, Hdead. reflexivity. }
    rewrite E. reflexivity.
  - injection Hh as Hl. rewrite Hl, Hclk. reflexivity.
Qed.

End EveryCase.
(** ** The limiter: keys, costs, a zero window, expiry *)

Lemma ge_int_Qeq (x y : Q) (n : Z) : x == y -> ge_int x n = ge_int y n.
Proof.
  intros E. destruct (ge_int y n) eqn:Hy.
  - apply ge_int_true. apply ge_int_true in Hy. lra.
  - apply ge_int_false. apply ge_int_false in Hy. lra.
Qed.

(** X1: a check on one key leaves untouched everything the limiter holds for
    any other key, on either backend and also when the check raises; the
    answer the other key would get is the same before and after. *)
Theorem check_leaves_other_keys
    (settings : Settings) (key key' : string) (n : Z) (w : World) :
  key <> key' ->
  held_for (snd (is_allowed settings key n w)) key' = held_for w key'
  /\ forall m : Z,
       fst (is_allowed settings key' m (snd (is_allowed settings key n w)))
       = fst (is_allowed settings key' m w).
Proof.
  intros Hne.
  assert (Hv : clock (snd (is_allowed settings key n w)) = clock w
               /\ backend_state (snd (is_allowed settings key n w)) = backend_state w
               /\ held_for (snd (is_allowed settings key n w)) key' = held_for w key').
  { rewrite is_allowed_cases. cbn [snd].
    destruct (expected_answer settings w key n).
    - split; [apply clock_after_check|].
      split; [apply after_check_backend_state | apply after_check_held_for, Hne].
    - repeat split. }
  destruct Hv as (Hclk & Hb & Hh). split; [exact Hh|].
  intros m. revert Hclk Hb Hh.
  generalize (snd (is_allowed settings key n w)). intros w1 Hclk Hb Hh.
  rewrite (is_allowed_cases settings key' m w1),
    (is_allowed_cases settings key' m w). cbn [fst].
  apply expected_answer_view; assumption.
Qed.

Lemma check_leaves_other_keys_witness :
  held_for (snd (is_allowed demo_settings "user:42" 1 charged_redis_world))
    "user:43"
  = held_for charged_redis_world "user:43".
Proof.
  apply (check_leaves_other_keys demo_settings "user:42" "user:43" 1
           charged_redis_world).
  discriminate.
Defined.

(** X2: a check whose cost is above the capacity is turned down, whatever
    the bucket holds and however long it has been idle. *)
Theorem cost_above_capacity_rejected
    (settings : Settings) (key : string) (n : Z) (w : World) :
  RATE_LIMIT_WINDOW settings <> 0%Z ->
  backend_up w ->
  (prior_capacity settings w key < n)%Z ->
  fst (is_allowed settings key n w) = Return false.
Proof.
  intros HW Hup Hn. rewrite is_allowed_decision by assumption. f_equal.
  apply ge_int_false. rewrite refreshed_tokens_eq.
  pose proof (py_min_le_l (inject_Z (prior_capacity settings w key))
                (prior_tokens settings w key
                 + (clock w - prior_last_refill settings w key)
                   * prior_rate settings w key)) as H.
  assert (inject_Z (prior_capacity settings w key) < inject_Z n)
    by (rewrite <- Zlt_Qlt; exact Hn).
  lra.
Qed.

Lemma cost_above_capacity_rejected_witness :
  fst (is_allowed demo_settings "user:42" 4 idle_world) = Return false.
Proof.
  apply cost_above_capacity_rejected.
  - discriminate.
  - intros r Hr. discriminate Hr.
  - vm_compute. reflexivity.
Defined.

(** X3: with a window of zero seconds a check raises [ZeroDivisionError] and
    changes nothing, on the Redis path for every key and on the in-process
    path for every key without a bucket. *)
Theorem zero_window_raises
    (settings : Settings) (key : string) (n : Z) (w : World) :
  RATE_LIMIT_WINDOW settings = 0%Z ->
  backend_up w ->
  local_buckets (limiter w) !! key = None ->
  is_allowed settings key n w = (Raise ZeroDivisionError, w).
Proof.
  intros HW Hup Hb. rewrite is_allowed_cases. unfold expected_answer.
  destruct (redis_client (limiter w)) as [r|] eqn:Hc.
  - rewrite (Hup r Hc), HW. reflexivity.
  - rewrite Hb, HW. reflexivity.
Qed.

Lemma zero_window_raises_witness :
  is_allowed zero_window_settings "user:42" 1 (fresh_world 1000)
  = (Raise ZeroDivisionError, fresh_world 1000).
Proof.
  apply zero_window_raises.
  - reflexivity.
  - intros r Hr. discriminate Hr.
  - apply lookup_empty.
Defined.

(** X4: on the Redis path, with a positive window and a reachable server, a
    check that passes gives the key a life of twice the window: read up to
    that deadline, the deadline included, the store holds the charged count
    and the time of the check; read after it the key is gone, and the next
    check starts from a full bucket. *)
Theorem redis_key_expires
    (settings : Settings) (key : string) (n : Z) (w : World) (r : Redis) :
  (0 < RATE_LIMIT_WINDOW settings)%Z ->
  redis_client (limiter w) = Some r ->
  reachable r = true ->
  fst (is_allowed settings key n w) = Return true ->
  (forall t : Q,
      t <= clock w + inject_Z (RATE_LIMIT_WINDOW settings * 2) ->
      stored_bucket (set_clock t (snd (is_allowed settings key n w))) key
      = Some (refreshed_tokens settings w key - inject_Z n, clock w))
  /\ (forall t : Q,
         clock w + inject_Z (RATE_LIMIT_WINDOW settings * 2) < t ->
         stored_bucket (set_clock t (snd (is_allowed settings key n w))) key = None
         /\ prior_tokens settings
              (set_clock t (snd (is_allowed settings key n w))) key
            = inject_Z (RATE_LIMIT_REQUESTS settings)
         /\ prior_last_refill settings
              (set_clock t (snd (is_allowed settings key n w))) key = t).
Proof.
  intros HW Hc Hr Hd.
  assert (Hup : backend_up w) by (intros r' Hr'; congruence).
  rewrite is_allowed_eq in * by (try lia; exact Hup). cbn [fst snd] in *.
  injection Hd as Hd.
  unfold after_check, refreshed_tokens in *. rewrite Hc in *. rewrite Hd.
  split.
  - intros t Ht.
    unfold stored_bucket, set_clock, with_client.
    cbn [limiter redis_client clock].
    rewrite (redis_saved_live_until settings r (clock w) t key n HW Ht).
    rewrite bucket_mapping_tokens, bucket_mapping_last_refill. reflexivity.
  - intros t Ht.
    assert (Hgone :
      live_hash (redis_saved settings r (clock w) key n) t (bucket_name key) = ∅).
    { unfold live_hash.
      rewrite (expired_true _ t _ _
                 (redis_saved_deadline settings r (clock w) key n HW) Ht).
      reflexivity. }
    unfold stored_bucket, prior_tokens, prior_last_refill, redis_prior,
      set_clock, with_client.
    cbn [limiter redis_client clock]. rewrite Hgone.
    rewrite lookup_empty. repeat split.
Qed.

Lemma redis_key_expires_witness :
  stored_bucket (set_clock 1120 charged_redis_world) "user:42" = Some (3 - 1, 1000)
  /\ stored_bucket (set_clock 1121 charged_redis_world) "user:42" = None.
Proof.
  assert (HW : (0 < RATE_LIMIT_WINDOW demo_settings)%Z) by reflexivity.
  assert (Hc : redis_client (limiter (redis_world 1000 live_redis)) = Some live_redis)
    by reflexivity.
  assert (Hr : reachable live_redis = true) by reflexivity.
  assert (Hd : fst (is_allowed demo_settings "user:42" 1 (redis_world 1000 live_redis))
               = Return true) by (vm_compute; reflexivity).
  destruct (redis_key_expires demo_settings "user:42" 1
              (redis_world 1000 live_redis) live_redis HW Hc Hr Hd) as (Hbefore & Hafter).
  split.
  - unfold charged_redis_world. rewrite (Hbefore 1120) by (vm_compute; discriminate).
    vm_compute. reflexivity.
  - unfold charged_redis_world. apply (Hafter 1121). reflexivity.
Defined.

(** ** The middleware on limited paths *)

(** X7: for an HTTP request on a path that is not exempt, with a backend
    that answers, the middleware checks the bucket of [ip:<client host>]
    ([ip:unknown] without a client) at cost 1.  Turned down, it answers 429
    with a retry hint of 60 seconds and does not run the wrapped application,
    whatever that is; let through, it runs the application in the state the
    check left. *)
Theorem middleware_limits_by_client
    {R : Type} (settings : Settings) (app app' : Scope -> M R)
    (scope : Scope) (w : World) :
  scope_type scope = "http"%string ->
  path_in (path scope) exempt_paths = false ->
  RATE_LIMIT_WINDOW settings <> 0%Z ->
  backend_up w ->
  RateLimitMiddleware_call (is_allowed settings) app scope w
  = (if ge_int (refreshed_tokens settings w
                  ("ip:" ++ default "unknown" (client_host scope))) 1
     then call_app app scope
            (after_check settings w
               ("ip:" ++ default "unknown" (client_host scope)) 1)
     else (Return (JSONResponse 429 60),
           after_check settings w
             ("ip:" ++ default "unknown" (client_host scope)) 1))%string
  /\ (fst (is_allowed settings
             ("ip:" ++ default "unknown" (client_host scope))%string 1 w)
      = Return false ->
      RateLimitMiddleware_call (is_allowed settings) app scope w
      = RateLimitMiddleware_call (is_allowed settings) app' scope w).
Proof.
  intros Ht Hp HW Hup.
  assert (E : forall a : Scope -> M R,
    RateLimitMiddleware_call (is_allowed settings) a scope w
    = (if ge_int (refreshed_tokens settings w
                    ("ip:" ++ default "unknown" (client_host scope))) 1
       then call_app a scope
              (after_check settings w
                 ("ip:" ++ default "unknown" (client_host scope)) 1)
       else (Return (JSONResponse 429 60),
             after_check settings w
               ("ip:" ++ default "unknown" (client_host scope)) 1))%string).
  { intros a. unfold RateLimitMiddleware_call. rewrite Ht, Hp.
    cbn [String.eqb Ascii.eqb Bool.eqb negb].
    unfold bind at 1. rewrite is_allowed_eq by assumption.
    destruct (ge_int _ 1); reflexivity. }
  split; [apply E|].
  intros Hd. rewrite is_allowed_decision in Hd by assumption.
  injection Hd as Hd. rewrite !E, Hd. reflexivity.
Qed.

Lemma middleware_limits_by_client_witness :
  RateLimitMiddleware_call (is_allowed demo_settings) idle_app (chat_scope None)
    (fresh_world 1000)
  = (Return (Downstream tt),
     after_check demo_settings (fresh_world 1000) "ip:unknown" 1).
Proof.
  destruct (middleware_limits_by_client demo_settings idle_app idle_app
              (chat_scope None) (fresh_world 1000)) as (E & _).
  - reflexivity.
  - reflexivity.
  - discriminate.
  - intros r Hr. discriminate Hr.
  - rewrite E. reflexivity.
Defined.

(** X8: a scope that is not an HTTP request (a websocket, the lifespan
    protocol) goes to the wrapped application without the limiter being
    consulted, whatever its path. *)
Theorem non_http_bypasses_limiter
    {R : Type} (check : string -> Z -> M bool) (app : Scope -> M R)
    (scope : Scope) (w : World) :
  scope_type scope <> "http"%string ->
  RateLimitMiddleware_call check app scope w = call_app app scope w.
Proof.
  intros Ht. unfold RateLimitMiddleware_call.
  destruct (String.eqb (scope_type scope) "http") eqn:E.
  - apply String.eqb_eq in E. contradiction.
  - reflexivity.
Qed.

Lemma non_http_bypasses_limiter_witness :
  RateLimitMiddleware_call (is_allowed demo_settings) idle_app websocket_scope
    unreachable_world
  = (Return (Downstream tt), unreachable_world).
Proof.
  rewrite (non_http_bypasses_limiter (is_allowed demo_settings) idle_app
             websocket_scope unreachable_world).
  - reflexivity.
  - discriminate.
Defined.

(** X9: when the Redis server fails during the check, the middleware raises
    the error to the server; it answers neither 429 nor runs the wrapped
    application, and the state is left as it was. *)
Theorem middleware_raises_backend_error
    {R : Type} (settings : Settings) (app : Scope -> M R) (scope : Scope)
    (w : World) (r : Redis) :
  scope_type scope = "http"%string ->
  path_in (path scope) exempt_paths = false ->
  redis_client (limiter w) = Some r ->
  reachable r = false ->
  RateLimitMiddleware_call (is_allowed settings) app scope w
  = (Raise ConnectionError, w).
Proof.
  intros Ht Hp Hc Hr. unfold RateLimitMiddleware_call. rewrite Ht, Hp.
  cbn [String.eqb Ascii.eqb Bool.eqb negb].
  unfold bind at 1. rewrite is_allowed_cases. unfold expected_answer.
  rewrite Hc, Hr. reflexivity.
Qed.

Lemma middleware_raises_backend_error_witness :
  RateLimitMiddleware_call (is_allowed demo_settings) idle_app
    (chat_scope (Some "10.0.0.7"%string)) unreachable_world
  = (Raise ConnectionError, unreachable_world).
Proof.
  apply (middleware_raises_backend_error demo_settings idle_app _ _ dead_redis);
    reflexivity.
Defined.

(** ** The chat endpoints *)

(** X10: the plain completion endpoint, with a backend that answers.  Turned
    down by the limiter it raises 429 without calling the provider, whatever
    the provider is; let through it returns the mapped response, or raises
    500 with a fixed detail when the provider fails.  In every case the
    caller's bucket [user:<id>] is left as the check left it: a provider
    failure does not give the token back. *)
Theorem chat_completions_outcomes
    (settings : Settings) (self : LLMService)
    (provider : CreateArgs -> outcome Completion.t) (request : ChatRequest)
    (user_id : string) (w : World) :
  RATE_LIMIT_WINDOW settings <> 0%Z ->
  backend_up w ->
  snd (chat_completions settings self provider request user_id w)
  = after_check settings w (user_key user_id) 1
  /\ fst (chat_completions settings self provider request user_id w)
     = (if ge_int (refreshed_tokens settings w (user_key user_id)) 1 then
          match provider (create_args self request false) with
          | Return response => Responded (completion_json response)
          | Raise _ => HTTPException 500 "Internal server error"
          end
        else HTTPException 429 "Rate limit exceeded").
Proof.
  intros HW Hup. unfold chat_completions, create_chat_completion.
  rewrite is_allowed_eq by assumption.
  destruct (ge_int _ 1); [|split; reflexivity].
  destruct (provider _); split; reflexivity.
Qed.

Lemma chat_completions_outcomes_witness :
  chat_completions demo_settings demo_service failing_provider
    zero_temperature_request "42" (fresh_world 1000)
  = (HTTPException 500 "Internal server error",
     after_check demo_settings (fresh_world 1000) "user:42" 1).
Proof.
  destruct (chat_completions_outcomes demo_settings demo_service failing_provider
              zero_temperature_request "42" (fresh_world 1000)) as (Hs & Hf).
  - discriminate.
  - intros r Hr. discriminate Hr.
  - rewrite (surjective_pairing (chat_completions _ _ _ _ _ _)), Hs, Hf.
    reflexivity.
Defined.

(** X11: when the limiter itself fails (the Redis server does not answer, or
    the window is 0 and the key is new), both chat endpoints raise 500
    "Internal server error": not 429, not the raw error; the provider is not
    called and the state is left as it was. *)
Theorem chat_endpoints_hide_limiter_failure
    (settings : Settings) (self : LLMService)
    (provider : CreateArgs -> outcome Completion.t)
    (upstream : CreateArgs -> Upstream) (request : ChatRequest)
    (user_id : string) (w : World) (e : exn) :
  fst (is_allowed settings (user_key user_id) 1 w) = Raise e ->
  chat_completions settings self provider request user_id w
  = (HTTPException 500 "Internal server error", w)
  /\ chat_completions_stream settings self upstream request user_id w
     = (HTTPException 500 "Internal server error", w).
Proof.
  intros He. unfold chat_completions, chat_completions_stream.
  rewrite is_allowed_cases in *. cbn [fst] in He. rewrite He.
  split; reflexivity.
Qed.

Lemma chat_endpoints_hide_limiter_failure_witness :
  chat_completions demo_settings demo_service failing_provider
    zero_temperature_request "42" unreachable_world
  = (HTTPException 500 "Internal server error", unreachable_world).
Proof.
  apply (chat_endpoints_hide_limiter_failure demo_settings demo_service
           failing_provider failing_upstream zero_temperature_request "42"
           unreachable_world ConnectionError).
  reflexivity.
Defined.

(** X12: the streaming endpoint, with a backend that answers.  Turned down
    it raises 429 and no stream exists, whatever the provider.  Let through
    it always returns a stream of type [text/event-stream] with buffering
    and caching switched off, also when the provider cannot be reached: the
    body runs to its end without raising and its last frame is the sentinel
    or the error event. *)
Theorem chat_completions_stream_outcomes
    (settings : Settings) (self : LLMService)
    (upstream upstream' : CreateArgs -> Upstream) (request : ChatRequest)
    (user_id : string) (w : World) :
  RATE_LIMIT_WINDOW settings <> 0%Z ->
  backend_up w ->
  (ge_int (refreshed_tokens settings w (user_key user_id)) 1 = false ->
   chat_completions_stream settings self upstream request user_id w
   = (HTTPException 429 "Rate limit exceeded",
      after_check settings w (user_key user_id) 1)
   /\ chat_completions_stream settings self upstream request user_id w
      = chat_completions_stream settings self upstream' request user_id w)
  /\ (ge_int (refreshed_tokens settings w (user_key user_id)) 1 = true ->
      exists response,
        chat_completions_stream settings self upstream request user_id w
        = (Responded response, after_check settings w (user_key user_id) 1)
        /\ body response = generate_stream self upstream (enable_streaming request)
        /\ yielded (body response)
           = yielded (generate_stream self upstream request)
        /\ raised (body response) = None
        /\ is_terminal (List.last (yielded (body response)) EmptyString) = true
        /\ media_type response = "text/event-stream"%string
        /\ In ("Cache-Control", "no-cache")%string (headers response)
        /\ In ("X-Accel-Buffering", "no")%string (headers response)).
Proof.
  intros HW Hup. unfold chat_completions_stream.
  rewrite !is_allowed_eq by assumption.
  split; intros Hd; rewrite Hd.
  - split; reflexivity.
  - eexists. split; [reflexivity|]. cbn [body media_type headers].
    split; [reflexivity|]. split; [reflexivity|].
    unfold generate_stream.
    destruct (raised (create_chat_completion_stream self upstream
                        (enable_streaming request))).
    + cbn [yielded raised]. rewrite last_last.
      repeat split; try reflexivity; cbn [In]; auto.
    + cbn [yielded raised]. rewrite last_last.
      repeat split; try reflexivity; cbn [In]; auto.
Qed.

Lemma chat_completions_stream_outcomes_witness :
  exists response,
    chat_completions_stream demo_settings demo_service failing_upstream
      zero_temperature_request "42" (fresh_world 1000)
    = (Responded response,
       after_check demo_settings (fresh_world 1000) "user:42" 1)
    /\ yielded (body response) = [error_frame].
Proof.
  destruct (chat_completions_stream_outcomes demo_settings demo_service
              failing_upstream failing_upstream zero_temperature_request "42"
              (fresh_world 1000)) as (_ & Hpass).
  - discriminate.
  - intros r Hr. discriminate Hr.
  - destruct Hpass as (response & E & Hb & _); [reflexivity|].
    exists response. split; [exact E|]. rewrite Hb. reflexivity.
Defined.

(** X13: the models endpoint never raises 500: when the provider cannot list
    its models the service substitutes four fixed names, so the [except]
    clause of the endpoint is never entered. *)
Theorem models_endpoint_never_fails (listing : outcome (list string)) :
  get_available_models listing
  = Responded
      (JDict [("models"%string,
               JList (map JStr match listing with
                               | Return ids => ids
                               | Raise _ => fallback_models
                               end))])
  /\ (forall code detail, get_available_models listing <> HTTPException code detail)
  /\ match service_health_check listing with
     | Return report =>
         json_get "status" report
         = Some (JStr match listing with
                      | Return _ => "healthy"
                      | Raise _ => "unhealthy"
                      end)
     | Raise _ => False
     end.
Proof.
  unfold get_available_models, service_get_available_models, service_health_check.
  destruct listing as [ids|e]; repeat split; intros; discriminate.
Qed.

(** ** Strings *)

Lemma string_app_cons (c : ascii) (s1 s2 : string) :
  (String c s1 ++ s2)%string = String c (s1 ++ s2)%string.
Proof. reflexivity. Qed.

Lemma string_app_nil_r (s : string) : (s ++ "")%string = s.
Proof.
  induction s as [|c s IH]; [reflexivity|].
  rewrite string_app_cons, IH. reflexivity.
Qed.

Lemma all_printable_app (s1 s2 : string) :
  all_printable (s1 ++ s2)%string = all_printable s1 && all_printable s2.
Proof.
  induction s1 as [|c s1 IH]; [reflexivity|].
  rewrite string_app_cons. cbn [all_printable]. rewrite IH. apply andb_assoc.
Qed.

Lemma escape_char_printable (c : ascii) : all_printable (escape_char c) = true.
Proof. destruct c as [[] [] [] [] [] [] [] []]; reflexivity. Qed.

Lemma escape_printable (s : string) : all_printable (escape s) = true.
Proof.
  induction s as [|c s IH]; [reflexivity|].
  cbn [escape]. rewrite all_printable_app, escape_char_printable, IH. reflexivity.
Qed.

Lemma encode_printable (s : string) :
  all_printable (encode_basestring_ascii s) = true.
Proof.
  unfold encode_basestring_ascii. cbn [all_printable].
  rewrite all_printable_app, escape_printable. reflexivity.
Qed.

Lemma pretty_N_char_printable (x : N) : printable (pretty_N_char x) = true.
Proof. unfold pretty_N_char. repeat case_match; reflexivity. Qed.

Lemma pretty_N_go_printable (x : N) (s : string) :
  all_printable s = true -> all_printable (pretty_N_go x s) = true.
Proof.
  revert s. induction (N.lt_wf_0 x) as [x _ IH]. intros s Hs.
  destruct (N.eq_dec x 0%N) as [->|Hx].
  - rewrite pretty_N_go_0. exact Hs.
  - rewrite pretty_N_go_step by lia. apply IH.
    + apply N.div_lt; lia.
    + cbn [all_printable]. rewrite pretty_N_char_printable, Hs. reflexivity.
Qed.

Lemma pretty_Z_printable (z : Z) : all_printable (pretty z) = true.
Proof.
  assert (HN : forall p : positive, all_printable (pretty p) = true).
  { intros p. unfold pretty, pretty_positive, pretty, pretty_N.
    case_decide; [reflexivity|]. apply pretty_N_go_printable. reflexivity. }
  destruct z as [|p|p]; unfold pretty, pretty_Z.
  - reflexivity.
  - apply HN.
  - rewrite all_printable_app. rewrite HN. reflexivity.
Qed.

Lemma json_dumps_printable : forall j : json, all_printable (json_dumps j) = true.
Proof.
  fix IH 1. intros [| s | z | items | pairs]; cbn [json_dumps].
  - reflexivity.
  - apply encode_printable.
  - apply pretty_Z_printable.
  - rewrite !all_printable_app.
    apply andb_true_intro; split; [reflexivity|].
    apply andb_true_intro; split; [|reflexivity].
    induction items as [|x rest IHl]; [reflexivity|].
    destruct rest as [|y rest'].
    + apply IH.
    + rewrite !all_printable_app, IH, IHl. reflexivity.
  - rewrite !all_printable_app.
    apply andb_true_intro; split; [reflexivity|].
    apply andb_true_intro; split; [|reflexivity].
    induction pairs as [|[k v] rest IHl]; [reflexivity|].
    destruct rest as [|y rest'].
    + rewrite !all_printable_app, encode_printable, IH. reflexivity.
    + rewrite !all_printable_app, encode_printable, IH, IHl. reflexivity.
Qed.

(** ** The service generator, chunk by chunk *)

Lemma chunk_events_raised (chunk : Chunk.t) :
  raised (chunk_events chunk)
  = if well_formed chunk then None else Some AttributeError.
Proof.
  unfold chunk_events, well_formed.
  destruct (Chunk.choices chunk) as [|choice rest]; [reflexivity|].
  destruct (Chunk.delta choice); reflexivity.
Qed.

Lemma chunk_events_malformed (chunk : Chunk.t) :
  well_formed chunk = false -> yielded (chunk_events chunk) = [].
Proof.
  unfold chunk_events, well_formed.
  destruct (Chunk.choices chunk) as [|choice rest]; [discriminate|].
  destruct (Chunk.delta choice); [discriminate | reflexivity].
Qed.

Lemma chunk_events_length (chunk : Chunk.t) :
  length (yielded (chunk_events chunk)) = events_of chunk.
Proof.
  unfold chunk_events, events_of, carries_content, carries_finish.
  destruct (Chunk.choices chunk) as [|choice rest]; [reflexivity|].
  destruct (Chunk.delta choice) as [d|]; [|reflexivity].
  destruct (Chunk.content d), (truthy (Chunk.finish_reason choice)); reflexivity.
Qed.

Lemma chunk_events_text (chunk : Chunk.t) :
  concat_strings (map event_text (yielded (chunk_events chunk)))
  = chunk_text chunk.
Proof.
  unfold chunk_events, chunk_text.
  destruct (Chunk.choices chunk) as [|choice rest]; [reflexivity|].
  destruct (Chunk.delta choice) as [d|]; [|reflexivity].
  destruct (Chunk.content d) as [text|].
  - destruct (truthy (Chunk.finish_reason choice));
      cbn [yielded app map concat_strings fold_right default from_option id];
      change (event_text (content_event chunk choice text)) with text;
      change (event_text (finish_event chunk choice)) with ""%string;
      rewrite ?string_app_nil_r; reflexivity.
  - destruct (truthy (Chunk.finish_reason choice)); reflexivity.
Qed.

Lemma concat_strings_app (l1 l2 : list string) :
  concat_strings (l1 ++ l2)
  = (concat_strings l1 ++ concat_strings l2)%string.
Proof.
  induction l1 as [|s l1 IH]; [reflexivity|].
  cbn [app concat_strings fold_right]. fold (concat_strings (l1 ++ l2)).
  fold (concat_strings l1). rewrite IH.
  clear. induction s as [|c s IHs]; [reflexivity|].
  rewrite !string_app_cons, IHs. reflexivity.
Qed.

Lemma relay_chunks_well_formed (chunks : list Chunk.t) (ending : StreamEnd) :
  Forall (fun chunk => well_formed chunk = true) chunks ->
  yielded (relay_chunks chunks ending)
  = flat_map (fun chunk => yielded (chunk_events chunk)) chunks
  /\ raised (relay_chunks chunks ending)
     = match ending with Exhausted => None | Fails e => Some e end.
Proof.
  induction 1 as [|chunk rest Hc _ [IHy IHr]]; cbn [relay_chunks flat_map].
  - destruct ending; split; reflexivity.
  - rewrite chunk_events_raised, Hc. cbn [yielded raised].
    rewrite IHy, IHr. split; reflexivity.
Qed.

Lemma relay_chunks_stop (good rest : list Chunk.t) (bad : Chunk.t)
      (ending : StreamEnd) :
  Forall (fun chunk => well_formed chunk = true) good ->
  well_formed bad = false ->
  yielded (relay_chunks (good ++ bad :: rest) ending)
  = flat_map (fun chunk => yielded (chunk_events chunk)) good
  /\ raised (relay_chunks (good ++ bad :: rest) ending) = Some AttributeError.
Proof.
  intros Hgood Hbad.
  induction Hgood as [|chunk good Hc _ [IHy IHr]]; cbn [app relay_chunks flat_map].
  - rewrite chunk_events_raised, Hbad. rewrite chunk_events_malformed by exact Hbad.
    split; [reflexivity|]. rewrite chunk_events_raised, Hbad. reflexivity.
  - rewrite chunk_events_raised, Hc. cbn [yielded raised].
    rewrite IHy, IHr. split; reflexivity.
Qed.

(** X14: a chunk whose first choice has no delta ends the session where it
    stands: the frames of the chunks before it are followed by the one error
    event, and nothing that comes after it upstream, chunks or the way the
    stream ends, has any effect. *)
Theorem relay_stops_at_malformed_chunk
    (self : LLMService) (upstream : CreateArgs -> Upstream) (request : ChatRequest)
    (good rest : list Chunk.t) (bad : Chunk.t) (ending : StreamEnd) :
  upstream (create_args self request true) = Opened (good ++ bad :: rest) ending ->
  Forall (fun chunk => well_formed chunk = true) good ->
  well_formed bad = false ->
  yielded (generate_stream self upstream request)
  = map (fun event => sse (json_dumps event))
      (flat_map (fun chunk => yielded (chunk_events chunk)) good)
    ++ [error_frame].
Proof.
  intros Hup Hgood Hbad.
  destruct (relay_chunks_stop good rest bad ending Hgood Hbad) as (Hy & Hr).
  unfold generate_stream, create_chat_completion_stream. rewrite Hup.
  cbn [yielded raised]. rewrite Hy, Hr. reflexivity.
Qed.

Lemma relay_stops_at_malformed_chunk_witness :
  yielded (generate_stream demo_service
             (fun _ => Opened ([demo_chunk (Some "Hel"%string) None]
                               ++ malformed_chunk
                                  :: [demo_chunk (Some "lo"%string) None])
                         Exhausted)
             zero_temperature_request)
  = map (fun event => sse (json_dumps event))
      (flat_map (fun chunk => yielded (chunk_events chunk))
         [demo_chunk (Some "Hel"%string) None])
    ++ [error_frame].
Proof.
  apply (relay_stops_at_malformed_chunk demo_service _ zero_temperature_request
           [demo_chunk (Some "Hel"%string) None]
           [demo_chunk (Some "lo"%string) None] malformed_chunk Exhausted).
  - reflexivity.
  - repeat constructor.
  - reflexivity.
Defined.

(** X15: for a stream of well-formed chunks that is exhausted, the endpoint
    emits one frame per content (not [None]) and one per finish reason (not
    empty), in that order chunk by chunk, and then the sentinel: the number
    of frames is the number of those events plus one. *)
Theorem well_formed_stream_frames
    (self : LLMService) (upstream : CreateArgs -> Upstream) (request : ChatRequest)
    (chunks : list Chunk.t) :
  upstream (create_args self request true) = Opened chunks Exhausted ->
  Forall (fun chunk => well_formed chunk = true) chunks ->
  yielded (generate_stream self upstream request)
  = map (fun event => sse (json_dumps event))
      (flat_map (fun chunk => yielded (chunk_events chunk)) chunks)
    ++ [done_frame]
  /\ length (yielded (generate_stream self upstream request))
     = S (list_sum (map events_of chunks)).
Proof.
  intros Hup Hwf.
  destruct (relay_chunks_well_formed chunks Exhausted Hwf) as (Hy & Hr).
  assert (E : yielded (generate_stream self upstream request)
              = map (fun event => sse (json_dumps event))
                  (flat_map (fun chunk => yielded (chunk_events chunk)) chunks)
                ++ [done_frame]).
  { unfold generate_stream, create_chat_completion_stream. rewrite Hup.
    cbn [yielded raised]. rewrite Hy, Hr. reflexivity. }
  split; [exact E|].
  rewrite E, length_app, length_map. cbn [length].
  rewrite Nat.add_1_r. f_equal.
  clear. induction chunks as [|chunk rest IH]; [reflexivity|].
  cbn [flat_map map list_sum fold_right]. rewrite length_app, chunk_events_length.
  fold (list_sum (map events_of rest)). rewrite IH. reflexivity.
Qed.

Lemma well_formed_stream_frames_witness :
  length (yielded (generate_stream demo_service hello_upstream
                     zero_temperature_request))
  = S (list_sum (map events_of
                   [demo_chunk (Some "Hel"%string) None;
                    demo_chunk (Some "lo"%string) None;
                    demo_chunk None (Some "stop"%string)])).
Proof.
  apply (well_formed_stream_frames demo_service hello_upstream
           zero_temperature_request).
  - reflexivity.
  - repeat constructor.
Defined.

(** X16: the relay neither drops, repeats nor reorders text: for a stream
    of well-formed chunks, the delta contents of the events the service
    yields, joined, are the contents of the chunks' first choices, joined. *)
Theorem relay_preserves_text
    (self : LLMService) (upstream : CreateArgs -> Upstream) (request : ChatRequest)
    (chunks : list Chunk.t) (ending : StreamEnd) :
  upstream (create_args self request true) = Opened chunks ending ->
  Forall (fun chunk => well_formed chunk = true) chunks ->
  concat_strings
    (map event_text
       (yielded (create_chat_completion_stream self upstream request)))
  = concat_strings (map chunk_text chunks).
Proof.
  intros Hup Hwf.
  destruct (relay_chunks_well_formed chunks ending Hwf) as (Hy & _).
  unfold create_chat_completion_stream. rewrite Hup. cbn [yielded]. rewrite Hy.
  clear. induction chunks as [|chunk rest IH]; [reflexivity|].
  cbn [flat_map map]. rewrite map_app, concat_strings_app, chunk_events_text, IH.
  reflexivity.
Qed.

Lemma relay_preserves_text_witness :
  concat_strings
    (map event_text
       (yielded (create_chat_completion_stream demo_service hello_upstream
                   zero_temperature_request)))
  = "Hello"%string.
Proof.
  rewrite (relay_preserves_text demo_service hello_upstream
             zero_temperature_request
             [demo_chunk (Some "Hel"%string) None;
              demo_chunk (Some "lo"%string) None;
              demo_chunk None (Some "stop"%string)] Exhausted).
  - reflexivity.
  - reflexivity.
  - repeat constructor.
Defined.

(** ** Users: registration and login *)

Lemma taken_false_find (column : Row.t -> string) (value : string)
      (users : list Row.t) :
  taken column value users = false <->
  List.find (fun row => String.eqb (column row) value) users = None.
Proof.
  unfold taken. induction users as [|row rest IH]; [split; reflexivity|].
  cbn [existsb List.find]. destruct (String.eqb (column row) value).
  - split; discriminate.
  - exact IH.
Qed.

Lemma taken_false_not_in (column : Row.t -> string) (value : string)
      (users : list Row.t) :
  taken column value users = false -> ~ In value (map column users).
Proof.
  unfold taken. induction users as [|row rest IH]; [intros _ []|].
  cbn [existsb map In]. destruct (String.eqb (column row) value) eqn:E.
  - discriminate.
  - intros H [Heq|Hin]; [|exact (IH H Hin)].
    apply String.eqb_neq in E. contradiction.
Qed.

Lemma find_app_new (f : Row.t -> bool) (users : list Row.t) (row : Row.t) :
  List.find f users = None -> f row = true ->
  List.find f (users ++ [row]) = Some row.
Proof.
  intros Hnone Hrow. induction users as [|r rest IH]; cbn [app List.find] in *.
  - rewrite Hrow. reflexivity.
  - destruct (f r); [discriminate | apply IH; exact Hnone].
Qed.

Lemma NoDup_append_one (l : list string) (x : string) :
  List.NoDup l -> ~ In x l -> List.NoDup (l ++ [x]).
Proof.
  intros Hl Hx. induction Hl as [|y l Hy _ IH]; cbn [app].
  - constructor; [intros []|constructor].
  - constructor.
    + intros Hin. apply in_app_or in Hin. destruct Hin as [Hin|[<-|[]]].
      * contradiction.
      * apply Hx. left. reflexivity.
    + apply IH. intros Hin. apply Hx. right. exact Hin.
Qed.

Lemma insert_user_cases (users : list Row.t) (row : Row.t) :
  insert_user users row = (IntegrityError, users)
  \/ (insert_user users row = (Stored tt, users ++ [row])
      /\ taken Row.id (Row.id row) users = false
      /\ taken Row.username (Row.username row) users = false
      /\ taken Row.email (Row.email row) users = false).
Proof.
  unfold insert_user.
  destruct (taken Row.id (Row.id row) users); [left; reflexivity|].
  destruct (taken Row.username (Row.username row) users); [left; reflexivity|].
  destruct (taken Row.email (Row.email row) users); [left; reflexivity|].
  right. repeat split.
Qed.

(** X18: whatever it answers, [register] keeps the identifiers, the user
    names and the mail addresses of the table free of duplicates, and it
    changes the table only by appending one row, only when it answers with
    the new user. *)
Theorem register_keeps_users_unique
    (get_password_hash : string -> string)
    (users : list Row.t) (env : Readings) (user_create : UserCreate.t) :
  unique_users users ->
  unique_users (snd (register get_password_hash users env user_create))
  /\ match fst (register get_password_hash users env user_create) with
     | Responded user =>
         exists row,
           snd (register get_password_hash users env user_create)
           = users ++ [row]
           /\ Row.id row = UserResponse.id user
           /\ Row.username row = UserCreate.username user_create
           /\ Row.email row = UserCreate.email user_create
           /\ Row.is_active row = true
     | HTTPException _ _ =>
         snd (register get_password_hash users env user_create) = users
     end.
Proof.
  intros (Hid & Hname & Hmail). unfold register.
  destruct (get_user_by_username users (UserCreate.username user_create));
    [split; [repeat split; assumption | reflexivity]|].
  unfold create_user.
  match goal with
  | |- context [insert_user users ?r] =>
      destruct (insert_user_cases users r) as [E|(E & H1 & H2 & H3)];
        rewrite E
  end.
  - split; [repeat split; assumption | reflexivity].
  - cbn [fst snd]. split.
    + unfold unique_users. rewrite !map_app. cbn [map].
      repeat split; apply NoDup_append_one; try assumption.
      * apply (taken_false_not_in Row.id) in H1. exact H1.
      * apply (taken_false_not_in Row.username) in H2. exact H2.
      * apply (taken_false_not_in Row.email) in H3. exact H3.
    + eexists. split; [reflexivity|]. repeat split.
Qed.

Lemma register_keeps_users_unique_witness :
  unique_users (snd (register toy_hash [alice_row] mallory_readings mallory_create))
  /\ snd (register toy_hash [alice_row] mallory_readings mallory_create)
     = [alice_row].
Proof.
  destruct (register_keeps_users_unique toy_hash [alice_row] mallory_readings
              mallory_create) as (Hu & Hs).
  - unfold unique_users. cbn [map].
    repeat split; (constructor; [intros []|constructor]).
  - split; [exact Hu | exact Hs].
Defined.

(** X19: registration followed by login.  When [register] answers with the
    new user, and checking a password against its own hash succeeds, a login
    with the same name and password on the resulting table succeeds: the
    token is made for the identifier [register] returned and expires in
    [60 * ACCESS_TOKEN_EXPIRE_MINUTES] seconds. *)
Theorem register_then_login
    (get_password_hash : string -> string)
    (verify_password : string -> string -> bool)
    (create_access_token : string -> Z -> string) (minutes : Z)
    (users : list Row.t) (env : Readings) (user_create : UserCreate.t)
    (user : UserResponse.t) :
  verify_password (UserCreate.password user_create)
    (get_password_hash (UserCreate.password user_create)) = true ->
  fst (register get_password_hash users env user_create) = Responded user ->
  login verify_password create_access_token minutes
    (snd (register get_password_hash users env user_create))
    {| LoginRequest.username := UserCreate.username user_create;
       LoginRequest.password := UserCreate.password user_create |}
  = Responded
      {| TokenResponse.access_token :=
           create_access_token (UserResponse.id user) minutes;
         TokenResponse.token_type := "bearer";
         TokenResponse.expires_in := minutes * 60 |}.
Proof.
  intros Hverify. unfold register.
  destruct (get_user_by_username users (UserCreate.username user_create))
    eqn:Hfind; [discriminate|].
  unfold create_user.
  match goal with
  | |- context [insert_user users ?r] =>
      destruct (insert_user_cases users r) as [E|(E & H1 & H2 & H3)];
        rewrite E
  end; cbn [fst snd]; [discriminate|].
  intros Hresp. injection Hresp as <-.
  unfold login, authenticate_user, get_user_by_username in *.
  cbn [LoginRequest.username LoginRequest.password].
  rewrite (find_app_new _ users _ Hfind)
    by (cbn [Row.username]; apply String.eqb_refl).
  cbn [Row.hashed_password Row.is_active Row.id UserResponse.id].
  rewrite Hverify. reflexivity.
Qed.

Lemma register_then_login_witness :
  login toy_verify toy_token 10080
    (snd (register toy_hash [] alice_readings alice_create))
    {| LoginRequest.username := "alice";
       LoginRequest.password := "correct horse" |}
  = Responded
      {| TokenResponse.access_token := "token-for-id-1";
         TokenResponse.token_type := "bearer";
         TokenResponse.expires_in := 604800 |}.
Proof.
  apply (register_then_login toy_hash toy_verify toy_token 10080 []
           alice_readings alice_create
           {| UserResponse.id := "id-1"; UserResponse.username := "alice";
              UserResponse.email := "alice@example.org";
              UserResponse.is_active := true;
              UserResponse.created_at := "2024-01-01T00:00:01" |}).
  - reflexivity.
  - reflexivity.
Defined.

(** X20: a registration whose mail address is taken is always refused and
    never changes the table: with 400 when the name is taken as well, and
    otherwise, since only the name is looked up first, by the table itself,
    which the endpoint answers with 500 "Registration failed". *)
Theorem register_refuses_taken_email
    (get_password_hash : string -> string)
    (users : list Row.t) (env : Readings) (user_create : UserCreate.t) :
  taken Row.email (UserCreate.email user_create) users = true ->
  register get_password_hash users env user_create
  = (if taken Row.username (UserCreate.username user_create) users
     then HTTPException 400 "Username already registered"
     else HTTPException 500 "Registration failed",
     users).
Proof.
  intros Hmail. unfold register, get_user_by_username.
  destruct (taken Row.username (UserCreate.username user_create) users) eqn:Hname.
  - destruct (List.find _ users) eqn:E; [reflexivity|].
    apply (taken_false_find Row.username) in E. congruence.
  - pose proof (proj1 (taken_false_find Row.username _ users) Hname) as E.
    rewrite E. unfold create_user, insert_user.
    cbn [Row.id Row.username Row.email]. rewrite Hname, Hmail.
    destruct (taken Row.id (uuid4 env) users); reflexivity.
Qed.

Lemma register_refuses_taken_email_witness :
  register toy_hash [alice_row] mallory_readings mallory_create
  = (HTTPException 500 "Registration failed", [alice_row]).
Proof.
  apply (register_refuses_taken_email toy_hash [alice_row] mallory_readings
           mallory_create).
  reflexivity.
Defined.

(** X21: a login succeeds for an active user whose password checks
    against the stored hash, and in no other way; it is refused with 401 and
    with one and the same detail when the name is unknown, when the password
    does not check, and when the user is inactive. *)
Theorem login_refusals
    (verify_password : string -> string -> bool)
    (create_access_token : string -> Z -> string) (minutes : Z)
    (users : list Row.t) (login_request : LoginRequest.t) :
  login verify_password create_access_token minutes users login_request
  = match get_user_by_username users (LoginRequest.username login_request) with
    | Some user =>
        if verify_password (LoginRequest.password login_request)
             (Row.hashed_password user)
           && Row.is_active user
        then Responded
               {| TokenResponse.access_token :=
                    create_access_token (Row.id user) minutes;
                  TokenResponse.token_type := "bearer";
                  TokenResponse.expires_in := minutes * 60 |}
        else HTTPException 401 "Incorrect username or password"
    | None => HTTPException 401 "Incorrect username or password"
    end
  /\ match login verify_password create_access_token minutes users
             login_request with
     | HTTPException code detail =>
         code = 401%Z /\ detail = "Incorrect username or password"%string
     | Responded token =>
         exists user,
           In user users
           /\ Row.username user = LoginRequest.username login_request
           /\ Row.is_active user = true
           /\ verify_password (LoginRequest.password login_request)
                (Row.hashed_password user) = true
     end.
Proof.
  unfold login, authenticate_user, get_user_by_username.
  destruct (List.find _ users) as [user|] eqn:Hfind.
  - apply find_some in Hfind. destruct Hfind as (Hin & Hname).
    apply String.eqb_eq in Hname.
    destruct (verify_password _ _) eqn:Hv, (Row.is_active user) eqn:Ha;
      cbn [negb andb]; (split; [reflexivity|]); try (split; reflexivity).
    exists user. repeat split; assumption.
  - split; [reflexivity|]. split; reflexivity.
Qed.

(** X22: registration followed by a look at one's own record.  When
    [register] answers with the new user, [/me] for the returned identifier
    finds that user on the resulting table, with the same name, address and
    active flag; the creation time it shows is the one stored with the row,
    while the answer of [register] carried a second, later reading of the
    clock. *)
Theorem register_then_me
    (get_password_hash : string -> string)
    (users : list Row.t) (env : Readings) (user_create : UserCreate.t)
    (user : UserResponse.t) :
  fst (register get_password_hash users env user_create) = Responded user ->
  get_current_user_info
    (snd (register get_password_hash users env user_create))
    (UserResponse.id user)
  = Responded
      {| UserResponse.id := UserResponse.id user;
         UserResponse.username := UserResponse.username user;
         UserResponse.email := UserResponse.email user;
         UserResponse.is_active := UserResponse.is_active user;
         UserResponse.created_at := utcnow_insert env |}
  /\ UserResponse.created_at user = utcnow_return env.
Proof.
  unfold register.
  destruct (get_user_by_username users (UserCreate.username user_create));
    [discriminate|].
  unfold create_user.
  match goal with
  | |- context [insert_user users ?r] =>
      destruct (insert_user_cases users r) as [E|(E & H1 & H2 & H3)];
        rewrite E
  end; cbn [fst snd]; [discriminate|].
  intros Hresp. injection Hresp as <-.
  cbn [UserResponse.id UserResponse.username UserResponse.email
       UserResponse.is_active UserResponse.created_at].
  split; [|reflexivity].
  unfold get_current_user_info, get_user_by_id.
  apply (taken_false_find Row.id) in H1. cbn [Row.id] in H1.
  rewrite (find_app_new _ users _ H1) by (cbn [Row.id]; apply String.eqb_refl).
  reflexivity.
Qed.

Lemma register_then_me_witness :
  get_current_user_info
    (snd (register toy_hash [] alice_readings alice_create)) "id-1"
  = Responded
      {| UserResponse.id := "id-1"; UserResponse.username := "alice";
         UserResponse.email := "alice@example.org";
         UserResponse.is_active := true;
         UserResponse.created_at := "2024-01-01T00:00:00" |}.
Proof.
  apply (register_then_me toy_hash [] alice_readings alice_create
           {| UserResponse.id := "id-1"; UserResponse.username := "alice";
              UserResponse.email := "alice@example.org";
              UserResponse.is_active := true;
              UserResponse.created_at := "2024-01-01T00:00:01" |}).
  reflexivity.
Defined.

Lemma find_update_last_login (f : Row.t -> string) (value user_id now : string)
      (users : list Row.t) :
  (forall row stamp,
      f {| Row.id := Row.id row; Row.username := Row.username row;
           Row.email := Row.email row;
           Row.hashed_password := Row.hashed_password row;
           Row.is_active := Row.is_active row;
           Row.created_at := Row.created_at row;
           Row.updated_at := stamp |} = f row) ->
  List.find (fun row => String.eqb (f row) value)
    (update_user_last_login users user_id now)
  = option_map
      (fun row =>
         if String.eqb (Row.id row) user_id then
           {| Row.id := Row.id row; Row.username := Row.username row;
              Row.email := Row.email row;
              Row.hashed_password := Row.hashed_password row;
              Row.is_active := Row.is_active row;
              Row.created_at := Row.created_at row;
              Row.updated_at := now |}
         else row)
      (List.find (fun row => String.eqb (f row) value) users).
Proof.
  intros Hf. unfold update_user_last_login.
  induction users as [|row rest IH]; [reflexivity|].
  cbn [map List.find].
  destruct (String.eqb (Row.id row) user_id) eqn:Hid.
  - rewrite Hf. destruct (String.eqb (f row) value).
    + cbn [option_map]. rewrite Hid. reflexivity.
    + exact IH.
  - destruct (String.eqb (f row) value).
    + cbn [option_map]. rewrite Hid. reflexivity.
    + exact IH.
Qed.

(** X23: [update_user_last_login] touches the [updated_at] column only: the
    table keeps its length, and every login is answered as before. *)
Theorem last_login_update_keeps_logins
    (verify_password : string -> string -> bool)
    (create_access_token : string -> Z -> string) (minutes : Z)
    (users : list Row.t) (user_id now : string) (login_request : LoginRequest.t) :
  login verify_password create_access_token minutes
    (update_user_last_login users user_id now) login_request
  = login verify_password create_access_token minutes users login_request
  /\ length (update_user_last_login users user_id now) = length users
  /\ map Row.id (update_user_last_login users user_id now) = map Row.id users.
Proof.
  split; [|split].
  - unfold login, authenticate_user, get_user_by_username.
    rewrite (find_update_last_login Row.username) by reflexivity.
    destruct (List.find _ users) as [user|]; [|reflexivity].
    cbn [option_map].
    destruct (String.eqb (Row.id user) user_id); [|reflexivity].
    cbn [Row.hashed_password Row.is_active Row.id].
    destruct (negb (verify_password _ _)), (negb (Row.is_active user));
      reflexivity.
  - unfold update_user_last_login. apply length_map.
  - unfold update_user_last_login. rewrite map_map. apply map_ext.
    intros row. destruct (String.eqb (Row.id row) user_id); reflexivity.
Qed.
